(** * KonvaGallery: layout and sizing engine

    A shallow embedding of [src/components/KonvaGallery.tsx] and the
    properties of its layout arithmetic: the global scale, the per-item
    scale, the planned positions, the canvas height and the keys.

    ** Numbers

    The component computes with JavaScript numbers.  They are modelled by
    exact rationals ([Qc], the canonical rationals, so that equal numbers
    are equal terms) extended with [NaN], [+Infinity] and [-Infinity]:
    division by zero, the propagation of [NaN], the falsiness of [0] and
    [NaN] and the comparisons that are false on [NaN] are those of
    ECMAScript.  Two things are outside the model: the rounding (and the
    overflow) of binary64 arithmetic, and the sign of zero, every zero
    being [+0].

    ** Strings

    A string is a sequence of code units below 256; the largest code
    units, and with them the line terminators U+2028 and U+2029, are
    outside the model.

    ** The component

    The props and the state read by one render pass are the variables of
    a section; a [useMemo] value is a definition, a [for] loop over the
    items a left fold, the [Map] of row heights a list of entries in
    insertion order, and the natural-size registry a finite map on
    strings.  A regular expression is a term, matched as ECMAScript
    does, and the updates of the state are the steps of a relation. *)

From Stdlib Require Import QArith Qcanon Qround ZArith Lia Lqa Ascii.
From stdpp Require Import base numbers option list strings pretty gmap.

Local Open Scope Z_scope.

(** ** JavaScript numbers *)

Inductive number : Type :=
  | NaN
  | PosInf
  | NegInf
  | Fin (q : Qc).

Global Instance number_eq_dec : EqDecision number.
Proof. solve_decision. Defined.

Declare Scope js_scope.
Delimit Scope js_scope with js.
Bind Scope js_scope with number.

Module Number.

Definition of_Z (z : Z) : number := Fin (Qc_of_Z z).
Definition of_nat (n : nat) : number := of_Z (Z.of_nat n).

(** A decimal literal [n/d], such as [0.35 = 35/100]. *)
Definition lit (n : Z) (d : positive) : number := Fin (Q2Qc (n # d)).

(** Sign of a number: [Gt] positive, [Lt] negative, [Eq] zero (and NaN). *)
Definition sign (a : number) : comparison :=
  match a with
  | NaN => Eq
  | PosInf => Gt
  | NegInf => Lt
  | Fin q => (q ?= 0)%Qc
  end.

Definition sign_mul (s t : comparison) : comparison :=
  match s, t with
  | Eq, _ | _, Eq => Eq
  | Gt, Gt | Lt, Lt => Gt
  | _, _ => Lt
  end.

(** The infinity of a sign; the indeterminate forms give [NaN]. *)
Definition inf_of_sign (s : comparison) : number :=
  match s with
  | Gt => PosInf
  | Lt => NegInf
  | Eq => NaN
  end.

Definition add (a b : number) : number :=
  match a, b with
  | NaN, _ | _, NaN => NaN
  | PosInf, NegInf | NegInf, PosInf => NaN
  | PosInf, _ | _, PosInf => PosInf
  | NegInf, _ | _, NegInf => NegInf
  | Fin x, Fin y => Fin (x + y)
  end.

Definition neg (a : number) : number :=
  match a with
  | NaN => NaN
  | PosInf => NegInf
  | NegInf => PosInf
  | Fin x => Fin (- x)
  end.

Definition sub (a b : number) : number := add a (neg b).

Definition mul (a b : number) : number :=
  match a, b with
  | NaN, _ | _, NaN => NaN
  | Fin x, Fin y => Fin (x * y)
  | _, _ => inf_of_sign (sign_mul (sign a) (sign b))
  end.

(** Division; a zero divisor is [+0]: [x / 0] is the infinity of the sign
    of [x], and [0 / 0] is [NaN]. *)
Definition div (a b : number) : number :=
  match a, b with
  | NaN, _ | _, NaN => NaN
  | Fin x, Fin y =>
      if decide (y = 0%Qc) then inf_of_sign (sign a) else Fin (x / y)
  | Fin _, _ => Fin 0
  | _, Fin y =>
      if decide (y = 0%Qc) then a else inf_of_sign (sign_mul (sign a) (sign b))
  | _, _ => NaN
  end.

(** Truncation toward zero of a rational. *)
Definition Qtrunc (q : Q) : Z :=
  if Qle_bool 0 q then Qfloor q else Qceiling q.

(** The remainder operator [%]: the result has the sign of the dividend. *)
Definition rem (n d : number) : number :=
  match n, d with
  | NaN, _ | _, NaN => NaN
  | PosInf, _ | NegInf, _ => NaN
  | Fin _, PosInf | Fin _, NegInf => n
  | Fin x, Fin y =>
      if decide (y = 0%Qc) then NaN
      else Fin (x - y * Qc_of_Z (Qtrunc (x / y)%Qc))
  end.

(** Three-way comparison; [None] when an operand is [NaN]. *)
Definition compare (a b : number) : option comparison :=
  match a, b with
  | NaN, _ | _, NaN => None
  | PosInf, PosInf | NegInf, NegInf => Some Eq
  | PosInf, _ | _, NegInf => Some Gt
  | NegInf, _ | _, PosInf => Some Lt
  | Fin x, Fin y => Some (x ?= y)%Qc
  end.

(** [a < b], [a > b], [a <= b], [a >= b]: all false on [NaN]. *)
Definition ltb (a b : number) : bool :=
  match compare a b with Some Lt => true | _ => false end.
Definition gtb (a b : number) : bool := ltb b a.
Definition leb (a b : number) : bool :=
  match compare a b with Some Lt | Some Eq => true | _ => false end.
Definition geb (a b : number) : bool := leb b a.

(** ToBoolean: [0] and [NaN] are falsy. *)
Definition truthy (a : number) : bool :=
  match a with
  | NaN => false
  | Fin q => if decide (q = 0%Qc) then false else true
  | _ => true
  end.

(** [a || b] on numbers. *)
Definition or (a b : number) : number := if truthy a then a else b.

(** [a >= 0] holds: [a] is a number, not [NaN], that is not negative. *)
Definition nonneg (a : number) : Prop := leb (of_Z 0) a = true.

End Number.

(** Integer literals are read as integers and injected. *)
Coercion Number.of_Z : Z >-> number.

Infix "+" := Number.add : js_scope.
Infix "-" := Number.sub : js_scope.
Infix "*" := Number.mul : js_scope.
Infix "/" := Number.div : js_scope.
Infix "<?" := Number.ltb : js_scope.
Infix ">?" := Number.gtb : js_scope.
Infix "<=?" := Number.leb : js_scope.
Infix ">=?" := Number.geb : js_scope.
Infix "||" := Number.or : js_scope.

(** The functions of the [Math] object that the component calls. *)
Module Math.

(** [Math.max(a, b)]: [NaN] when an argument is [NaN]. *)
Definition max (a b : number) : number :=
  match a, b with
  | NaN, _ | _, NaN => NaN
  | _, _ => if Number.ltb a b then b else a
  end.

Definition min (a b : number) : number :=
  match a, b with
  | NaN, _ | _, NaN => NaN
  | _, _ => if Number.ltb b a then b else a
  end.

Definition floor (a : number) : number :=
  match a with
  | Fin q => Number.of_Z (Qfloor q)
  | _ => a
  end.

Definition ceil (a : number) : number :=
  match a with
  | Fin q => Number.of_Z (Qceiling q)
  | _ => a
  end.

(** [Math.round]: the nearest integer, a tie going up. *)
Definition round (a : number) : number :=
  match a with
  | Fin q => Number.of_Z (Qfloor (q + Q2Qc (1 # 2))%Qc)
  | _ => a
  end.

End Math.

(** ** Data model *)

Inductive MediaType : Type := image | video.

(** [Item]: the optional fields are [None] when the property is absent
    ([typeof item.w === "number"] is [is_Some (Item.w item)]). *)
Module Item.
Record t : Type := mk {
  title : string;
  url : string;
  type : option MediaType;
  x : option number;
  y : option number;
  w : option number;
  h : option number;
  autoplay : option bool;
  loop : option bool;
  muted : option bool;
  posterUrl : option string;
}.
End Item.
Abbreviation Item := Item.t.

(** The natural size [{ w, h }] of a medium. *)
Module Dim.
Record t : Type := mk { w : number; h : number }.
End Dim.
Abbreviation Dim := Dim.t.

Global Instance Dim_eq_dec : EqDecision Dim.
Proof. solve_decision. Defined.

(** [FreePos | GridPos]; the [mode] tag is the constructor. *)
Inductive Mode : Type := free | grid.

Module Pos.
Inductive t : Type :=
  | FreePos (x y : number)
  | GridPos (x y row : number).

Definition x (p : t) : number :=
  match p with FreePos x _ | GridPos x _ _ => x end.
Definition y (p : t) : number :=
  match p with FreePos _ y | GridPos _ y _ => y end.
Definition mode (p : t) : Mode :=
  match p with FreePos _ _ => free | GridPos _ _ _ => grid end.
End Pos.
Abbreviation Pos := Pos.t.
Abbreviation FreePos := Pos.FreePos.
Abbreviation GridPos := Pos.GridPos.

Global Instance Pos_inhabited : Inhabited Pos := populate (FreePos 0 0).
Global Instance Mode_eq_dec : EqDecision Mode.
Proof. solve_decision. Defined.

(** [a || b] on strings: the empty string is falsy. *)
Definition str_or (a b : string) : string :=
  if decide (a = EmptyString) then b else a.

(** A string without the character [-], as the decimal numeral of an
    index is. *)
Fixpoint no_dash (s : string) : Prop :=
  match s with
  | EmptyString => True
  | String c r => c <> "-"%char /\ no_dash r
  end.

(** [o ?? d]. *)
Definition nullish (o : option number) (d : number) : number :=
  match o with Some v => v | None => d end.

(** [o || d] where [o] may be [undefined]. *)
Definition or_undefined (o : option number) (d : number) : number :=
  match o with Some v => (v || d)%js | None => d end.

(** A [Map<number, number>]: the entries in insertion order; keys are
    compared by SameValueZero, which on this model of numbers is
    equality. *)
Module JsMap.
Definition t : Type := list (number * number).

Fixpoint get (k : number) (m : t) : option number :=
  match m with
  | [] => None
  | (k', v) :: m' => if decide (k = k') then Some v else get k m'
  end.

(** [set] keeps the position of a key that is already present and
    appends a new one. *)
Fixpoint set (k v : number) (m : t) : t :=
  match m with
  | [] => [(k, v)]
  | (k', v') :: m' =>
      if decide (k = k') then (k, v) :: m' else (k', v') :: set k v m'
  end.

Definition keys (m : t) : list number := m.*1.
End JsMap.

(** [Array.prototype.sort] with the comparator [(a, b) => a - b], as a
    stable insertion sort: [b] goes before [a] when [a - b > 0].  (Where
    the comparator is not consistent, on [NaN] keys, the order is left to
    the engine; what is proved below holds for any order of the rows.) *)
Module ArraySort.
Fixpoint insert (a : number) (l : list number) : list number :=
  match l with
  | [] => [a]
  | b :: l' => if ((a - b) >? 0)%js then b :: insert a l' else a :: l
  end.

Definition sort (l : list number) : list number := foldr insert [] l.
End ArraySort.

(** ** Strings and patterns

    A string is a sequence of code units below 256 (Latin-1).  On them
    [toLowerCase] maps [A-Z] and the capital letters [U+00C0-U+00DE]
    (but [U+00D7], the multiplication sign) 32 places up. *)

Module JsString.

Definition toLowerChar (c : ascii) : ascii :=
  let n := nat_of_ascii c in
  if ((65 <=? n) && (n <=? 90)
      || (192 <=? n) && (n <=? 222) && negb (n =? 215))%nat
  then ascii_of_nat (n + 32)
  else c.

Fixpoint toLowerCase (s : string) : string :=
  match s with
  | EmptyString => EmptyString
  | String c r => String (toLowerChar c) (toLowerCase r)
  end.

End JsString.

(** The regular expressions that the component uses, and their matcher
    in the continuation-passing style of ECMAScript: [m r k s] tries the
    pattern [r] at the head of [s] and hands what is left to the
    continuation [k]. *)
Module RegExp.

Inductive t : Type :=
  | Empty                 (* the empty pattern *)
  | Char (c : ascii)      (* a pattern character *)
  | Dot                   (* [.] *)
  | End                   (* [$] *)
  | Seq (r s : t)         (* [rs] *)
  | Alt (r s : t)         (* [r|s] *)
  | Opt (r : t)           (* [r?] *)
  | Star (r : t).         (* [r*] *)

(** The pattern of a literal text. *)
Fixpoint chars (s : string) : t :=
  match s with
  | EmptyString => Empty
  | String c r => Seq (Char c) (chars r)
  end.

(** [Canonicalize] under the flag [i]: the upper case of the character,
    which on code units below 256 maps [a-z] and [U+00E0-U+00FE] (but
    [U+00F7], the division sign) 32 places down; the other characters
    either have no upper case or one outside the range, equal to no
    character of it. *)
Definition canonicalize (ignoreCase : bool) (ch : ascii) : ascii :=
  if ignoreCase then
    let n := nat_of_ascii ch in
    if ((97 <=? n) && (n <=? 122)
        || (224 <=? n) && (n <=? 254) && negb (n =? 247))%nat
    then ascii_of_nat (n - 32)
    else ch
  else ch.

(** The line terminators, which [.] does not match: LF and CR
    ([U+2028] and [U+2029] are outside the range). *)
Definition lineTerminator (c : ascii) : bool :=
  bool_decide (c = "010"%char) || bool_decide (c = "013"%char).

(** [r*]: an iteration that consumes nothing is not repeated; the fuel
    is the length of the input, more than the iterations that consume. *)
Fixpoint repeatMatcher (body : (string -> bool) -> string -> bool)
  (k : string -> bool) (fuel : nat) (s : string) {struct fuel} : bool :=
  match fuel with
  | O => k s
  | S fuel' =>
      body (fun s' =>
              if (String.length s' <? String.length s)%nat
              then repeatMatcher body k fuel' s' else false) s
      || k s
  end.

Fixpoint m (ignoreCase : bool) (r : t) (k : string -> bool) (s : string)
  {struct r} : bool :=
  match r with
  | Empty => k s
  | Char c =>
      match s with
      | String d s' =>
          bool_decide (canonicalize ignoreCase d = canonicalize ignoreCase c)
          && k s'
      | EmptyString => false
      end
  | Dot =>
      match s with
      | String d s' => negb (lineTerminator d) && k s'
      | EmptyString => false
      end
  | End =>
      match s with
      | EmptyString => k s
      | String _ _ => false
      end
  | Seq r1 r2 => m ignoreCase r1 (m ignoreCase r2 k) s
  | Alt r1 r2 => m ignoreCase r1 k s || m ignoreCase r2 k s
  | Opt r1 => m ignoreCase r1 k s || k s
  | Star r1 => repeatMatcher (m ignoreCase r1) k (String.length s) s
  end.

(** [RegExp.prototype.test]: a match is tried at every index of the
    input, from the first on. *)
Fixpoint test (ignoreCase : bool) (r : t) (s : string) : bool :=
  m ignoreCase r (fun _ => true) s
  || match s with
     | EmptyString => false
     | String _ s' => test ignoreCase r s'
     end.

End RegExp.

(** A text without line terminator, as [.*] matches. *)
Fixpoint single_line (s : string) : Prop :=
  match s with
  | EmptyString => True
  | String c r => RegExp.lineTerminator c = false /\ single_line r
  end.

(** ** [isVideoItem] *)

(** The pattern of the url of a video, under the flag [i]: a dot, one of
    the extensions [mp4], [webm], [ogg], [ogv], [mov], [m4v], then
    optionally a [?] or a [#] with any characters after it, then the end
    of the input. *)
Definition videoUrl : RegExp.t :=
  RegExp.Seq (RegExp.Char ".")
    (RegExp.Seq
       (RegExp.Alt (RegExp.chars "mp4")
          (RegExp.Alt (RegExp.chars "webm")
             (RegExp.Alt (RegExp.chars "ogg")
                (RegExp.Alt (RegExp.chars "ogv")
                   (RegExp.Alt (RegExp.chars "mov") (RegExp.chars "m4v"))))))
       (RegExp.Seq
          (RegExp.Opt
             (RegExp.Alt
                (RegExp.Seq (RegExp.Char "?") (RegExp.Star RegExp.Dot))
                (RegExp.Seq (RegExp.Char "#") (RegExp.Star RegExp.Dot))))
          RegExp.End)).

(** The text of a declared [type]. *)
Definition typeName (t : MediaType) : string :=
  match t with image => "image" | video => "video" end.

Definition isVideoItem (item : Item) : bool :=
  let t :=
    JsString.toLowerCase
      (match Item.type item with Some t => typeName t | None => "" end) in
  if decide (t = "video") then true
  else RegExp.test true videoUrl (Item.url item).

(** The text of a string with every character canonicalized, and the
    strings written with the letters and the digit of the extensions. *)
Fixpoint canonString (s : string) : string :=
  match s with
  | EmptyString => EmptyString
  | String c r => String (RegExp.canonicalize true c) (canonString r)
  end.

Fixpoint plain (p : string) : Prop :=
  match p with
  | EmptyString => True
  | String c r =>
      c ∈ ["m"; "p"; "4"; "w"; "e"; "b"; "o"; "g"; "v"]%char /\ plain r
  end.

(** ** [DraggableMedia]: the per-item node *)

Module DraggableMedia.

(** [onMeta]: the size a video reports at [loadedmetadata],
    [{ w: el.videoWidth || 0, h: el.videoHeight || 0 }], which is handed
    to [onNaturalSize]. *)
Definition onMeta (videoWidth videoHeight : number) : Dim :=
  Dim.mk (videoWidth || 0)%js (videoHeight || 0)%js.

(** [baseW], [baseH]: the loaded size, [0] while nothing is loaded
    ([videoMeta?.w ?? 0], [img?.width ?? 0]). *)
Definition baseW (loaded : option Dim) : number :=
  match loaded with Some d => Dim.w d | None => 0 end.
Definition baseH (loaded : option Dim) : number :=
  match loaded with Some d => Dim.h d | None => 0 end.

Definition internalScale (item : Item) (scale maxW baseW baseH : number)
  : number :=
  if negb (Number.truthy baseW) || negb (Number.truthy baseH) then 1
  else match Item.w item with
       | Some w => ((w * scale) / baseW)%js
       | None =>
           match Item.h item with
           | Some h => ((h * scale) / baseH)%js
           | None => Math.min 1 ((maxW * scale) / baseW)%js
           end
       end.

Definition renderedH (item : Item) (scale maxW baseW baseH : number)
  : number :=
  (baseH * internalScale item scale maxW baseW baseH)%js.

(** The [y] of the label drawn under a hovered node: [(renderedH || 0) + 6]. *)
Definition labelY (renderedH : number) : number := ((renderedH || 0) + 6)%js.

(** The props a node is rendered with, and its React [key]. *)
Record Props : Type := mkProps {
  key : string;
  item : Item;
  x : number;
  y : number;
  scale : number;
  maxW : number;
}.

End DraggableMedia.

(** ** [KonvaGallery]: the controller *)

Definition BASE_WIDTH : number := 2560.

Section KonvaGallery.

(** [JSON.stringify] on items is a primitive of the platform. *)
Variable JSON_stringify : Item -> string.

(** The props [items], [cols], [maxW] and the state [size.w],
    [naturalSizes] of one render pass. *)
Variable items : list Item.
Variable cols : number.
Variable maxW : number.
Variable size_w : number.
Variable naturalSizes : gmap string Dim.

(** The registry key of an item: [it.url || it.title || JSON.stringify(it)]. *)
Definition keyOf (it : Item) : string :=
  str_or (str_or (Item.url it) (Item.title it)) (JSON_stringify it).

Definition handleNaturalSize (item : Item) (dim : Dim)
  (prev : gmap string Dim) : gmap string Dim :=
  let key := keyOf item in
  <[key := dim]> prev.

Definition globalScale : number :=
  Math.max (Number.lit 35 100) (Math.min (Number.lit 11 10) (size_w / BASE_WIDTH)%js).

Definition padding : number := (20 * globalScale)%js.
Definition gapX : number := (40 * globalScale)%js.
Definition gapY : number := (40 * globalScale)%js.
Definition colW : number :=
  Math.max (240 * globalScale)%js (size_w / cols - gapX)%js.

Definition position (i : nat) (item : Item) : Pos :=
  if bool_decide (is_Some (Item.x item)) || bool_decide (is_Some (Item.y item))
  then
    FreePos (Math.round (nullish (Item.x item) 0 * globalScale)%js)
            (Math.round (nullish (Item.y item) 0 * globalScale)%js)
  else
    let col := Number.rem (Number.of_nat i) cols in
    let row := Math.floor (Number.of_nat i / cols)%js in
    let x := Math.round (padding + col * (colW + gapX))%js in
    let y := Math.round (padding + row * gapY)%js in
    GridPos x y row.

Definition positions : list Pos := imap position items.

Definition getRenderedHeight (item : Item) (nat : option Dim) : number :=
  match nat with
  | None => 0
  | Some nat =>
      let natW := Dim.w nat in
      let natH := Dim.h nat in
      let internalScale :=
        match Item.w item with
        | Some w => ((w * globalScale) / natW)%js
        | None =>
            match Item.h item with
            | Some h => ((h * globalScale) / natH)%js
            | None => Math.min 1 ((maxW * globalScale) / natW)%js
            end
        end in
      (natH * internalScale)%js
  end.

(** *** The canvas-height effect *)

Definition anyFree : bool :=
  existsb (fun p => bool_decide (Pos.mode p = free)) positions.

(** One turn of the free-mode loop, on [items[i]] and [positions[i]]. *)
Definition freeStep (maxBottom : number) (ip : Item * Pos) : number :=
  let it := ip.1 in
  let pos := ip.2 in
  let nat := naturalSizes !! keyOf it in
  let rh := getRenderedHeight it nat in
  let labelPad : number := 24 in
  let bottom := ((Pos.y pos || 0) + rh + labelPad)%js in
  if (bottom >? maxBottom)%js then bottom else maxBottom.

Definition maxBottom : number :=
  fold_left freeStep (zip items positions) 0.

Definition freeHeight : number :=
  Math.max 500 (Math.ceil (maxBottom + padding)%js).

(** One turn of the grid-mode loop. *)
Definition gridStep (rowHeights : JsMap.t) (ip : Item * Pos) : JsMap.t :=
  let it := ip.1 in
  match ip.2 with
  | FreePos _ _ => rowHeights
  | GridPos _ _ row =>
      let nat := naturalSizes !! keyOf it in
      let rh := getRenderedHeight it nat in
      let current := or_undefined (JsMap.get row rowHeights) 0 in
      JsMap.set row (Math.max current rh) rowHeights
  end.

Definition rowHeights : JsMap.t :=
  fold_left gridStep (zip items positions) [].

Definition rows : list number := ArraySort.sort (JsMap.keys rowHeights).

Definition sumHeights : number :=
  fold_left (fun acc r => (acc + or_undefined (JsMap.get r rowHeights) 0)%js)
            rows 0.

Definition totalGaps : number :=
  (Math.max 0 (Number.of_nat (length rows) - 1) * gapY)%js.

Definition labelPadPerRow : number := (Number.of_nat (length rows) * 24)%js.

Definition gridHeight : number :=
  Math.max 500
    (Math.ceil (padding + sumHeights + totalGaps + labelPadPerRow + padding)%js).

(** The height the effect stores in [size.h]. *)
Definition canvasHeight : number :=
  if bool_decide (length items = 0%nat) then 500
  else if anyFree then freeHeight
  else gridHeight.

(** *** Rendering: one [DraggableMedia] per item *)

Definition mediaKey (item : Item) (i : nat) : string :=
  str_or (Item.title item) (Item.url item) +:+ "-" +:+ pretty i.

(** [positions[i]] is read at an index of [items], where it is defined
    ([positions] has the length of [items]). *)
Definition mediaNode (i : nat) (item : Item) : DraggableMedia.Props :=
  DraggableMedia.mkProps
    (mediaKey item i) item
    (Pos.x (positions !!! i)) (Pos.y (positions !!! i))
    globalScale maxW.

Definition mediaNodes : list DraggableMedia.Props := imap mediaNode items.

End KonvaGallery.

(** The grid loop seen on the [(row, rendered height)] of an item: what
    [gridStep] does to [rowHeights] for an item in grid mode. *)
Definition recordRow (rowHeights : JsMap.t) (e : number * number) : JsMap.t :=
  JsMap.set e.1 (Math.max (or_undefined (JsMap.get e.1 rowHeights) 0) e.2)
            rowHeights.

Global Instance MediaType_eq_dec : EqDecision MediaType.
Proof. solve_decision. Defined.
Global Instance Item_eq_dec : EqDecision Item.
Proof. solve_decision. Defined.
Global Instance Pos_eq_dec : EqDecision Pos.
Proof. solve_decision. Defined.
Global Instance Props_eq_dec : EqDecision DraggableMedia.Props.
Proof. solve_decision. Defined.

(** ** The state of the controller *)

(** [size]: the width and the height given to the [Stage], initially
    [{ w: 800, h: 600 }]. *)
Module Size.
Record t : Type := mk { w : number; h : number }.
End Size.
Abbreviation Size := Size.t.

Definition initialSize : Size := Size.mk 800 600.

(** [measure]: nothing while the container is not mounted
    ([containerRef.current] is [null]), else
    [setSize(s => ({ ...s, w: clientWidth }))], [clientWidth] being a
    whole number. *)
Definition measure (container : option Z) (s : Size) : Size :=
  match container with
  | None => s
  | Some clientWidth => Size.mk clientWidth (Size.h s)
  end.

(** The update of the sizing effect: [setSize(s => ({ ...s, h: totalH }))]. *)
Definition setHeight (totalH : number) (s : Size) : Size :=
  Size.mk (Size.w s) totalH.

(** The sizes that the state can take: the initial one, and those that
    [measure] and the sizing effect make of them.  The effect computes
    its height in a render pass, from the width of the state rendered,
    and its update is applied to the state current by then. *)
Inductive reachable (JSON_stringify : Item -> string) : Size -> Prop :=
  | reachable_initial : reachable JSON_stringify initialSize
  | reachable_measure (container : option Z) (s : Size) :
      reachable JSON_stringify s ->
      reachable JSON_stringify (measure container s)
  | reachable_resize (items : list Item) (cols maxW : number)
      (naturalSizes : gmap string Dim) (rendered s : Size) :
      reachable JSON_stringify rendered ->
      reachable JSON_stringify s ->
      reachable JSON_stringify
        (setHeight
           (canvasHeight JSON_stringify items cols maxW (Size.w rendered)
              naturalSizes)
           s).

(** The registry after the nodes have reported the natural sizes
    [reports], in this order: one call of [handleNaturalSize] each. *)
Definition reportAll (JSON_stringify : Item -> string)
  (reports : list (Item * Dim)) (prev : gmap string Dim) : gmap string Dim :=
  fold_left (fun m r => handleNaturalSize JSON_stringify r.1 r.2 m) reports prev.

(** ** The formulas of the specification

    Written from the words of the specification, to be compared with the
    component above. *)

Module Spec.

(** [clamp(x, lo, hi)]. *)
Definition clamp (x lo hi : Qc) : Qc :=
  if bool_decide (x < lo)%Qc then lo
  else if bool_decide (hi < x)%Qc then hi
  else x.

(** The per-item effective scale for a known natural size. *)
Definition effectiveScale (item : Item) (globalScale maxW natW natH : number)
  : number :=
  match Item.w item, Item.h item with
  | Some w, _ => ((w * globalScale) / natW)%js
  | None, Some h => ((h * globalScale) / natH)%js
  | None, None => Math.min 1 ((maxW * globalScale) / natW)%js
  end.

(** The dimension that drives the scale of an item: its declared width,
    else its declared height, else the ceiling [maxW]. *)
Definition drivingDim (item : Item) (maxW : number) : number :=
  match Item.w item, Item.h item with
  | Some w, _ => w
  | None, Some h => h
  | None, None => maxW
  end.

(** Presence of [x] or [y] puts an item in free mode. *)
Definition mode (item : Item) : Mode :=
  match Item.x item, Item.y item with
  | None, None => grid
  | _, _ => free
  end.

(** The maximum and the sum of a list of numbers: [Math.max(...l)] and
    the sum from [0]. *)
Definition max_list (l : list number) : number := foldr Math.max NegInf l.
Definition sum_list (l : list number) : number := foldr Number.add 0 l.

(** The identity key of an item: [url] if non-empty, else [title], else
    the serialized content. *)
Definition identityKey (serialize : Item -> string) (item : Item) : string :=
  if decide (Item.url item = EmptyString)
  then if decide (Item.title item = EmptyString)
       then serialize item
       else Item.title item
  else Item.url item.

(** Ordinary inputs: a finite number that is not negative; an item whose
    declared coordinates are finite and whose declared dimensions are
    finite and not negative; a natural size of finite, strictly positive
    width and height. *)
Definition finiteNonneg (a : number) : Prop :=
  exists q : Qc, a = Fin q /\ (0 <= q)%Qc.

Definition finite (a : number) : Prop := exists q : Qc, a = Fin q.

Definition ordinaryItem (item : Item) : Prop :=
  (forall v, Item.x item = Some v -> finite v)
  /\ (forall v, Item.y item = Some v -> finite v)
  /\ (forall v, Item.w item = Some v -> finiteNonneg v)
  /\ (forall v, Item.h item = Some v -> finiteNonneg v).

Definition positiveDim (d : Dim) : Prop :=
  exists a b : Qc, d = Dim.mk (Fin a) (Fin b) /\ (0 < a)%Qc /\ (0 < b)%Qc.

Definition ordinaryRegistry (naturalSizes : gmap string Dim) : Prop :=
  forall (k : string) (d : Dim), naturalSizes !! k = Some d -> positiveDim d.

Section Layout.

Variable JSON_stringify : Item -> string.
Variable items : list Item.
Variable cols : number.
Variable maxW : number.
Variable W : number.
Variable naturalSizes : gmap string Dim.

Let gs : number := globalScale W.

(** The rendered height of an item, from its registry entry. *)
Definition renderedHeightOf (it : Item) : number :=
  getRenderedHeight maxW W it (naturalSizes !! keyOf JSON_stringify it).

(** Grid placement of index [i]. *)
Definition gridPosition (i : nat) : Pos :=
  let gap := (40 * gs)%js in
  let pad := (20 * gs)%js in
  let columnW := Math.max (240 * gs)%js (W / cols - gap)%js in
  let col := Number.rem (Number.of_nat i) cols in
  let row := Math.floor (Number.of_nat i / cols)%js in
  GridPos (Math.round (pad + col * (columnW + gap))%js)
          (Math.round (pad + row * gap)%js)
          row.

(** Free placement of declared coordinates, an absent one counting as 0. *)
Definition freePosition (item : Item) : Pos :=
  FreePos (Math.round (nullish (Item.x item) 0 * gs)%js)
          (Math.round (nullish (Item.y item) 0 * gs)%js).

(** Free-mode sizing: [bottom = y + renderedHeight + 24] for every item. *)
Definition bottoms : list number :=
  (fun ip : Item * Pos => (Pos.y ip.2 + renderedHeightOf ip.1 + 24)%js)
    <$> zip items (positions items cols W).

Definition freeHeight : number :=
  Math.max 500 (Math.ceil (max_list bottoms + 20 * gs)%js).

(** Grid-mode sizing: the items grouped by row. *)
Definition rowOf (i : nat) : number := Math.floor (Number.of_nat i / cols)%js.

Definition rowEntries : list (number * number) :=
  imap (fun i it => (rowOf i, renderedHeightOf it)) items.

Definition distinctRows : list number := remove_dups rowEntries.*1.

Definition rowHeight (r : number) : number :=
  max_list (filter (fun e => e.1 = r) rowEntries).*2.

Definition gridHeight : number :=
  let numRows := Number.of_nat (length distinctRows) in
  Math.max 500
    (Math.ceil (sum_list (rowHeight <$> distinctRows)
                + (numRows - 1) * (40 * gs)
                + numRows * 24
                + 2 * (20 * gs))%js).

End Layout.

End Spec.

(** The order of finite numbers: both are finite, and the first is at
    most the second. *)
Definition below (a b : number) : Prop :=
  exists x y : Qc, a = Fin x /\ b = Fin y /\ (x <= y)%Qc.

(** ** Sample inputs

    The sizes and coordinates are chosen so that every quotient below is
    a dyadic fraction: the arithmetic on them is exact in binary64 too. *)

Module Sample.

Definition item (title url : string) (x y w h : option number) : Item :=
  Item.mk title url None x y w h None None None None.

(** A serializer to run the component with; the samples all have a
    [url], so it is never called. *)
Definition stringify (_ : Item) : string := "{}".


(** Free items, placed at the origin: a photo, and a clip of declared
    width 300. *)
Definition photo : Item :=
  item "photo" "photo.png" (Some (Number.of_Z 0)) (Some (Number.of_Z 0)) None None.
Definition clip : Item :=
  item "clip" "clip.mp4" (Some (Number.of_Z 0)) (Some (Number.of_Z 0))
       (Some (Number.of_Z 300)) None.

(** Grid items: a tall photo, a small one, a clip of declared width 300
    and an item of declared width -300. *)
Definition tall : Item := item "tall" "tall.png" None None None None.
Definition small : Item := item "small" "small.png" None None None None.
Definition silent : Item :=
  item "silent" "silent.mp4" None None (Some (Number.of_Z 300)) None.
Definition flipped : Item :=
  item "flipped" "flipped.png" None None (Some (Number.of_Z (-300))) None.

(** The registry once the photos have reported their sizes. *)
Definition photosLoaded : gmap string Dim :=
  handleNaturalSize stringify flipped (Dim.mk 640 360)
    (handleNaturalSize stringify small (Dim.mk 100 50)
       (handleNaturalSize stringify tall (Dim.mk 512 1024)
          (handleNaturalSize stringify photo (Dim.mk 512 1024) ∅))).

(** The registry after the clips have loaded too, reporting 640 x 360. *)
Definition loaded : gmap string Dim :=
  handleNaturalSize stringify silent (DraggableMedia.onMeta 640 360)
    (handleNaturalSize stringify clip (DraggableMedia.onMeta 640 360)
       photosLoaded).

(** The registry when the clips report [videoWidth = videoHeight = 0]. *)
Definition loadedNoVideo : gmap string Dim :=
  handleNaturalSize stringify silent (DraggableMedia.onMeta 0 0)
    (handleNaturalSize stringify clip (DraggableMedia.onMeta 0 0)
       photosLoaded).

End Sample.

(** * Properties *)

(** ** Arithmetic of the number model *)

Lemma Qccompare_cases (x y : Qc) :
  ((x ?= y)%Qc = Lt /\ (x < y)%Qc) \/
  ((x ?= y)%Qc = Eq /\ x = y) \/
  ((x ?= y)%Qc = Gt /\ (y < x)%Qc).
Proof.
  destruct (x ?= y)%Qc eqn:E.
  - right; left. split; [done|]. by apply Qceq_alt.
  - left. split; [done|]. by apply Qclt_alt.
  - right; right. split; [done|]. by apply Qcgt_alt.
Qed.

Lemma Qc_canon_Qeq (x y : Qc) : x = y -> (this x == this y)%Q.
Proof. by intros ->. Qed.

(** Order and equality goals on [Qc], sent to [Q] and closed by [lra]. *)
Ltac qc_unfold :=
  repeat match goal with
  | H : ~ (_ < _)%Qc |- _ => apply Qcnot_lt_le in H
  | H : ~ (_ <= _)%Qc |- _ => apply Qcnot_le_lt in H
  | H : @eq Qc _ _ |- _ => apply Qc_canon_Qeq in H
  | H : @eq Qc _ _ -> False |- _ =>
      apply (fun H' => fun E => H' (Qc_is_canon _ _ E)) in H
  end;
  try match goal with
  | |- @eq Qc _ _ => apply Qc_is_canon
  | |- ~ @eq Qc _ _ => let E := fresh in intros E; apply Qc_canon_Qeq in E
  end;
  unfold Qcminus in *;
  unfold Qclt, Qcle, Qcplus, Qcopp, Qcmult, Q2Qc, Qc_of_Z in *;
  cbn [this] in *;
  rewrite ?Qred_correct in *;
  repeat match goal with
  | |- context [inject_Z (Zpos ?p)] =>
      change (inject_Z (Zpos p)) with (Zpos p # 1)%Q in *
  | |- context [inject_Z (Zneg ?p)] =>
      change (inject_Z (Zneg p)) with (Zneg p # 1)%Q in *
  | |- context [inject_Z Z0] => change (inject_Z Z0) with (0 # 1)%Q in *
  | H : context [inject_Z (Zpos ?p)] |- _ =>
      change (inject_Z (Zpos p)) with (Zpos p # 1)%Q in *
  | H : context [inject_Z (Zneg ?p)] |- _ =>
      change (inject_Z (Zneg p)) with (Zneg p # 1)%Q in *
  | H : context [inject_Z Z0] |- _ =>
      change (inject_Z Z0) with (0 # 1)%Q in *
  end.

Ltac qc_lra := qc_unfold; lra.

Lemma compare_Fin (x y : Qc) :
  Number.compare (Fin x) (Fin y) = Some (x ?= y)%Qc.
Proof. reflexivity. Qed.

Lemma ltb_Fin (x y : Qc) : (Fin x <? Fin y)%js = bool_decide (x < y)%Qc.
Proof.
  unfold Number.ltb. rewrite compare_Fin.
  destruct (Qccompare_cases x y) as [[-> H]|[[-> H]|[-> H]]];
    case_bool_decide as D; try done.
  - subst. by apply Qclt_not_eq in D.
  - destruct (Qclt_not_le _ _ H). by apply Qclt_le_weak.
Qed.

Lemma leb_Fin (x y : Qc) : (Fin x <=? Fin y)%js = bool_decide (x <= y)%Qc.
Proof.
  unfold Number.leb. rewrite compare_Fin.
  destruct (Qccompare_cases x y) as [[-> H]|[[-> H]|[-> H]]];
    case_bool_decide as D; try done.
  - destruct D. by apply Qclt_le_weak.
  - destruct D. subst. apply Qcle_refl.
  - by apply Qclt_not_le in H.
Qed.

Lemma max_Fin (x y : Qc) :
  Math.max (Fin x) (Fin y) = Fin (if bool_decide (x < y)%Qc then y else x).
Proof. unfold Math.max. rewrite ltb_Fin. by case_bool_decide. Qed.

Lemma min_Fin (x y : Qc) :
  Math.min (Fin x) (Fin y) = Fin (if bool_decide (y < x)%Qc then y else x).
Proof. unfold Math.min. rewrite ltb_Fin. by case_bool_decide. Qed.

Lemma Qc_of_Z_nonzero (z : Z) : z <> 0 -> Qc_of_Z z <> 0%Qc.
Proof. intros Hz E. apply Hz. apply Z2Qc_inj. by rewrite E, Z2Qc_inj_0. Qed.

Lemma div_Fin (x y : Qc) : y <> 0%Qc -> (Fin x / Fin y)%js = Fin (x / y).
Proof. intros Hy. unfold Number.div. by destruct (decide (y = 0%Qc)). Qed.

Lemma Fin_of_Z_0 : Fin 0%Qc = 0.
Proof. unfold Number.of_Z. by rewrite Z2Qc_inj_0. Qed.

(** Case analysis on numbers, with the comparisons of finite ones decided. *)
Ltac number_simpl :=
  cbn -[Qcplus Qcmult Qcopp Qcminus Qcdiv Qccompare Qclt Qcle Qc_of_Z Q2Qc] in *.

Ltac number_cases :=
  repeat match goal with
  | a : number |- _ => destruct a
  end;
  unfold Math.max, Math.min, Number.gtb, Number.geb, Number.ltb, Number.leb,
    Number.of_nat, Number.of_Z, Number.lit in *;
  number_simpl;
  repeat (match goal with
          | |- context [(?x ?= ?y)%Qc] =>
              let E := fresh in
              destruct (Qccompare_cases x y) as [[E ?]|[[E ?]|[E ?]]];
              rewrite E in *; clear E
          | H : context [(?x ?= ?y)%Qc] |- _ =>
              let E := fresh in
              destruct (Qccompare_cases x y) as [[E ?]|[[E ?]|[E ?]]];
              rewrite E in *; clear E
          end; number_simpl);
  try done.

Lemma add_comm (a b : number) : (a + b)%js = (b + a)%js.
Proof. destruct a, b; try done. cbn. by rewrite Qcplus_comm. Qed.

Lemma add_assoc (a b c : number) : (a + (b + c))%js = (a + b + c)%js.
Proof. destruct a, b, c; try done. cbn. by rewrite Qcplus_assoc. Qed.

Lemma add_0_l (a : number) : (0 + a)%js = a.
Proof.
  destruct a; try done. cbn. f_equal. rewrite Z2Qc_inj_0. apply Qcplus_0_l.
Qed.

Lemma add_0_r (a : number) : (a + 0)%js = a.
Proof. by rewrite add_comm, add_0_l. Qed.

Lemma max_assoc (a b c : number) :
  Math.max a (Math.max b c) = Math.max (Math.max a b) c.
Proof. number_cases; f_equal; qc_lra. Qed.

Lemma max_NegInf_l (a : number) : Math.max NegInf a = a.
Proof. by destruct a. Qed.

Lemma max_NegInf_r (a : number) : Math.max a NegInf = a.
Proof. by destruct a. Qed.

(** ** Global scale *)

Lemma clamp_bounds (x lo hi : Qc) :
  (lo <= hi)%Qc -> (lo <= Spec.clamp x lo hi)%Qc /\ (Spec.clamp x lo hi <= hi)%Qc.
Proof.
  intros Hlh. unfold Spec.clamp.
  repeat case_bool_decide; split; try done; try apply Qcle_refl; qc_lra.
Qed.

(** For an integer width the quotient [W / 2560] is finite, and the nested
    [Math.max]/[Math.min] is the clamp. *)
Lemma globalScale_Z (W : Z) :
  globalScale W =
  Fin (Spec.clamp (Qc_of_Z W / Qc_of_Z 2560) (Q2Qc (35 # 100)) (Q2Qc (11 # 10))).
Proof.
  unfold globalScale, BASE_WIDTH, Number.lit, Number.of_Z.
  rewrite div_Fin by (by apply Qc_of_Z_nonzero).
  generalize (Qc_of_Z W / Qc_of_Z 2560)%Qc. intros q.
  rewrite min_Fin, max_Fin. f_equal. unfold Spec.clamp.
  repeat case_bool_decide; try done; qc_lra.
Qed.

Lemma globalScale_range (W : Z) :
  exists g : Qc,
    globalScale W = Fin g /\ (Q2Qc (35 # 100) <= g)%Qc /\ (g <= Q2Qc (11 # 10))%Qc.
Proof.
  eexists. split; [apply globalScale_Z|]. by apply clamp_bounds.
Qed.

(** C2. For every container width [W] the global scale is [W / 2560]
    clamped to [[0.35, 1.1]], so it lies in that interval; widths 2560,
    100 and 5000 give 1, 0.35 and 1.1. *)
Theorem globalScale_clamp :
  (forall W : Z,
      globalScale W =
      Fin (Spec.clamp (Qc_of_Z W / Qc_of_Z 2560) (Q2Qc (35 # 100)) (Q2Qc (11 # 10)))
      /\ (Number.lit 35 100 <=? globalScale W)%js = true
      /\ (globalScale W <=? Number.lit 11 10)%js = true)
  /\ globalScale 2560 = 1
  /\ globalScale 100 = Number.lit 35 100
  /\ globalScale 5000 = Number.lit 11 10.
Proof.
  split; [|repeat split; compute_done].
  intros W. split; [apply globalScale_Z|].
  destruct (globalScale_range W) as (g & -> & Hlo & Hhi).
  unfold Number.lit. rewrite !leb_Fin. by rewrite !bool_decide_eq_true_2.
Qed.

(** ** The empty list *)

(** C8. For the empty item list the canvas height is exactly 500, neither
    sizing loop being run, and no media node is produced. *)
Theorem empty_list_height_500 :
  forall (JSON_stringify : Item -> string) (cols maxW size_w : number)
         (naturalSizes : gmap string Dim),
    canvasHeight JSON_stringify [] cols maxW size_w naturalSizes = 500
    /\ mediaNodes [] cols maxW size_w = [].
Proof. intros. split; reflexivity. Qed.

(** ** Per-item effective scale *)

Lemma getRenderedHeight_known (maxW size_w : number) (item : Item) (nat : Dim) :
  getRenderedHeight maxW size_w item (Some nat) =
  (Dim.h nat *
   Spec.effectiveScale item (globalScale size_w) maxW (Dim.w nat) (Dim.h nat))%js.
Proof.
  unfold getRenderedHeight, Spec.effectiveScale.
  by destruct (Item.w item), (Item.h item).
Qed.

Lemma internalScale_cases (item : Item) (scale maxW baseW baseH : number) :
  DraggableMedia.internalScale item scale maxW baseW baseH =
  if Number.truthy baseW && Number.truthy baseH
  then Spec.effectiveScale item scale maxW baseW baseH
  else 1.
Proof.
  unfold DraggableMedia.internalScale, Spec.effectiveScale.
  by destruct (Number.truthy baseW), (Number.truthy baseH),
    (Item.w item), (Item.h item).
Qed.

(** C3. With a known natural size [(natW, natH)] the effective scale of
    an item is [(w * globalScale) / natW] when a width [w] is declared
    (whether or not a height is), else [(h * globalScale) / natH] when a
    height [h] is declared, else [min(1, (maxW * globalScale) / natW)]:
    [getRenderedHeight] is [natH] times that scale, and the node's
    [internalScale] is that scale, a node knowing its size when [baseW]
    and [baseH] are non-zero.  With an unknown natural size
    [getRenderedHeight] is 0 and the node's scale is 1.  Before any load
    the registry is empty and the rendered height 0; after a load has
    reported [{w: 1000, h: 500}] for an item of declared width 200 the
    rendered height is [500 * ((200 * globalScale) / 1000)]. *)
Theorem effective_scale_formula :
  forall (JSON_stringify : Item -> string) (item : Item) (maxW size_w : number),
    (forall nat : Dim,
        getRenderedHeight maxW size_w item (Some nat) =
        (Dim.h nat *
         Spec.effectiveScale item (globalScale size_w) maxW (Dim.w nat) (Dim.h nat))%js)
    /\ getRenderedHeight maxW size_w item None = 0
    /\ (forall scale baseW baseH : number,
           DraggableMedia.internalScale item scale maxW baseW baseH =
           if Number.truthy baseW && Number.truthy baseH
           then Spec.effectiveScale item scale maxW baseW baseH
           else 1)
    /\ DraggableMedia.internalScale item (globalScale size_w) maxW
         (DraggableMedia.baseW None) (DraggableMedia.baseH None) = 1
    /\ (forall gs natW natH w : number,
           Item.w item = Some w ->
           Spec.effectiveScale item gs maxW natW natH = ((w * gs) / natW)%js)
    /\ (forall gs natW natH h : number,
           Item.w item = None -> Item.h item = Some h ->
           Spec.effectiveScale item gs maxW natW natH = ((h * gs) / natH)%js)
    /\ (forall gs natW natH : number,
           Item.w item = None -> Item.h item = None ->
           Spec.effectiveScale item gs maxW natW natH
           = Math.min 1 ((maxW * gs) / natW)%js)
    /\ getRenderedHeight maxW size_w item
         ((∅ : gmap string Dim) !! keyOf JSON_stringify item) = 0
    /\ (forall (title url : string) (x y h : option number),
           getRenderedHeight maxW size_w
             (Sample.item title url x y (Some (Number.of_Z 200)) h)
             (handleNaturalSize JSON_stringify
                (Sample.item title url x y (Some (Number.of_Z 200)) h)
                (Dim.mk 1000 500) ∅
              !! keyOf JSON_stringify
                   (Sample.item title url x y (Some (Number.of_Z 200)) h))
           = (500 * ((200 * globalScale size_w) / 1000))%js).
Proof.
  intros. split_and!.
  - apply getRenderedHeight_known.
  - reflexivity.
  - intros scale bW bH. apply internalScale_cases.
  - reflexivity.
  - intros gs natW natH w Hw. unfold Spec.effectiveScale. by rewrite Hw.
  - intros gs natW natH h Hw Hh. unfold Spec.effectiveScale. by rewrite Hw, Hh.
  - intros gs natW natH Hw Hh. unfold Spec.effectiveScale. by rewrite Hw, Hh.
  - reflexivity.
  - intros. unfold handleNaturalSize. by rewrite lookup_insert_eq.
Qed.

(** ** Position planning *)

Lemma positions_lookup (items : list Item) (cols size_w : number) (i : nat) :
  positions items cols size_w !! i = position cols size_w i <$> items !! i.
Proof. apply list_lookup_imap. Qed.

Lemma positions_length (items : list Item) (cols size_w : number) :
  length (positions items cols size_w) = length items.
Proof. apply length_imap. Qed.

Lemma position_free (cols size_w : number) (i : nat) (item : Item) :
  is_Some (Item.x item) \/ is_Some (Item.y item) ->
  position cols size_w i item = Spec.freePosition size_w item.
Proof.
  intros H. unfold position.
  repeat case_bool_decide; try done. by destruct H.
Qed.

Lemma position_grid (cols size_w : number) (i : nat) (item : Item) :
  Item.x item = None -> Item.y item = None ->
  position cols size_w i item = Spec.gridPosition cols size_w i.
Proof.
  intros Hx Hy. unfold position. rewrite Hx, Hy.
  repeat case_bool_decide; try done; by destruct (is_Some_None (A:=number)).
Qed.

Lemma position_mode (cols size_w : number) (i : nat) (item : Item) :
  Pos.mode (position cols size_w i item) = Spec.mode item.
Proof.
  unfold position, Spec.mode.
  destruct (Item.x item), (Item.y item); repeat case_bool_decide; try done;
    try (by destruct (is_Some_None (A:=number)));
    exfalso; eauto.
Qed.

(** [anyFree] holds exactly when some item is in free mode. *)
Lemma existsb_free_imap (f : nat -> Item -> Pos) (l : list Item) :
  (forall i it, Pos.mode (f i it) = Spec.mode it) ->
  existsb (fun p => bool_decide (Pos.mode p = free)) (imap f l)
  = bool_decide (Exists (fun it => Spec.mode it = free) l).
Proof.
  revert f. induction l as [|it l IH]; intros f Hf; cbn [imap existsb].
  - symmetry. apply bool_decide_eq_false_2. by intros ?%Exists_nil.
  - rewrite (IH (f ∘ S)) by (intros; apply Hf). rewrite Hf. clear IH.
    destruct (decide (Spec.mode it = free)) as [Hit|Hit];
      destruct (decide (Exists (fun it => Spec.mode it = free) l)) as [Hl|Hl].
    + rewrite !bool_decide_eq_true_2; [done|by left|done|done].
    + rewrite (bool_decide_eq_true_2 (Spec.mode it = free)) by done.
      by rewrite (bool_decide_eq_true_2 (Exists _ (_ :: _))) by (by left).
    + rewrite (bool_decide_eq_true_2 (Exists _ l)) by done.
      rewrite (bool_decide_eq_true_2 (Exists _ (_ :: _))) by (by right).
      apply orb_true_r.
    + rewrite !bool_decide_eq_false_2; [done| |done|done].
      by intros [?|?]%Exists_cons.
Qed.

Lemma anyFree_true (items : list Item) (cols size_w : number) :
  anyFree items cols size_w = true <->
  Exists (fun it => Spec.mode it = free) items.
Proof.
  unfold anyFree, positions.
  rewrite existsb_free_imap by (intros; apply position_mode).
  apply bool_decide_eq_true.
Qed.

Lemma anyFree_false (items : list Item) (cols size_w : number) :
  anyFree items cols size_w = false <->
  Forall (fun it => Spec.mode it = grid) items.
Proof.
  unfold anyFree, positions.
  rewrite existsb_free_imap by (intros; apply position_mode).
  rewrite bool_decide_eq_false, <- Forall_Exists_neg.
  apply Forall_proper; [|done]. intros it. by destruct (Spec.mode it).
Qed.



(** On non-negative integers [%] and [Math.floor(_ / _)] are the
    remainder and the quotient of the Euclidean division. *)
Lemma Qc_div_of_Z (a b : Z) :
  (this (Qc_of_Z a / Qc_of_Z b)%Qc == inject_Z a / inject_Z b)%Q.
Proof.
  unfold Qcdiv, Qcinv, Qcmult, Q2Qc, Qc_of_Z. cbn [this].
  by rewrite !Qred_correct.
Qed.

Lemma floor_div_nat (i c : nat) :
  (0 < c)%nat ->
  Math.floor (Number.of_nat i / Number.of_nat c)%js = Number.of_nat (i / c).
Proof.
  intros Hc. unfold Number.of_nat, Number.of_Z.
  rewrite div_Fin by (apply Qc_of_Z_nonzero; lia).
  cbn [Math.floor]. unfold Number.of_Z. do 2 f_equal.
  rewrite (Qfloor_comp _ _ (Qc_div_of_Z _ _)), <- Zdiv_Qdiv.
  by rewrite Nat2Z.inj_div.
Qed.

Lemma rem_nat (i c : nat) :
  (0 < c)%nat ->
  Number.rem (Number.of_nat i) (Number.of_nat c) = Number.of_nat (i mod c).
Proof.
  intros Hc. unfold Number.of_nat, Number.of_Z, Number.rem.
  destruct (decide _) as [E|_].
  { exfalso. revert E. apply Qc_of_Z_nonzero. lia. }
  f_equal.
  assert (Number.Qtrunc (Qc_of_Z (Z.of_nat i) / Qc_of_Z (Z.of_nat c))%Qc
          = Z.of_nat i / Z.of_nat c) as ->.
  { unfold Number.Qtrunc.
    assert (0 <= this (Qc_of_Z (Z.of_nat i) / Qc_of_Z (Z.of_nat c))%Qc)%Q as H0.
    { rewrite Qc_div_of_Z. apply Qle_shift_div_l.
      - rewrite <- (Zlt_Qlt 0). lia.
      - rewrite Qmult_0_l. rewrite <- (Zle_Qle 0). lia. }
    apply Qle_bool_iff in H0. rewrite H0.
    by rewrite (Qfloor_comp _ _ (Qc_div_of_Z _ _)), <- Zdiv_Qdiv. }
  rewrite Nat2Z.inj_mod, Z.mod_eq by lia.
  by rewrite Z2Qc_inj_sub, Z2Qc_inj_mul.
Qed.

(** C4. An item at index [i] with neither [x] nor [y] declared is
    planned in grid mode with [col = i % cols], [row = floor(i / cols)],
    [x = round(padding + col * (colW + gapX))] and
    [y = round(padding + row * gapY)], where
    [colW = max(240 * globalScale, W / cols - gapX)],
    [gapX = gapY = 40 * globalScale] and [padding = 20 * globalScale];
    for a whole number [c > 0] of columns [col] is [i mod c] and [row] is
    the quotient [i / c]; with 3 columns the indices 0..5 fall in rows
    0,0,0,1,1,1 and columns 0,1,2,0,1,2. *)
Theorem grid_position :
  forall (items : list Item) (cols size_w : number) (i : nat) (item : Item),
    items !! i = Some item ->
    Item.x item = None ->
    Item.y item = None ->
    positions items cols size_w !! i =
      Some (let gs := globalScale size_w in
            let gapX := (40 * gs)%js in
            let gapY := (40 * gs)%js in
            let padding := (20 * gs)%js in
            let colW := Math.max (240 * gs)%js (size_w / cols - gapX)%js in
            let col := Number.rem (Number.of_nat i) cols in
            let row := Math.floor (Number.of_nat i / cols)%js in
            GridPos (Math.round (padding + col * (colW + gapX))%js)
                    (Math.round (padding + row * gapY)%js)
                    row)
    /\ (forall c : nat,
           (0 < c)%nat ->
           cols = Number.of_nat c ->
           Number.rem (Number.of_nat i) cols = Number.of_nat (i mod c)
           /\ Math.floor (Number.of_nat i / cols)%js = Number.of_nat (i / c))
    /\ (fun k : nat => Math.floor (Number.of_nat k / 3)%js) <$> seq 0 6
       = Number.of_Z <$> [0; 0; 0; 1; 1; 1]
    /\ (fun k : nat => Number.rem (Number.of_nat k) 3) <$> seq 0 6
       = Number.of_Z <$> [0; 1; 2; 0; 1; 2]
    /\ positions (replicate 6 Sample.tall) 3 2560
       = [GridPos 20 20 0; GridPos 873 20 0; GridPos 1727 20 0;
          GridPos 20 60 1; GridPos 873 60 1; GridPos 1727 60 1].
Proof.
  intros items cols size_w i item Hi Hx Hy. split_and!.
  - rewrite positions_lookup, Hi. cbn. by rewrite position_grid.
  - intros c Hc ->. split; [by apply rem_nat | by apply floor_div_nat].
  - compute_done.
  - compute_done.
  - compute_done.
Qed.

Lemma grid_position_witness :
  replicate 6 Sample.tall !! 4%nat = Some Sample.tall
  /\ Item.x Sample.tall = None
  /\ Item.y Sample.tall = None
  /\ positions (replicate 6 Sample.tall) 3 2560 !! 4%nat
     = Some (GridPos 873 60 1).
Proof.
  split_and!; [reflexivity..|].
  destruct (grid_position (replicate 6 Sample.tall) 3 2560 4%nat Sample.tall
              eq_refl eq_refl eq_refl)
    as [H _].
  rewrite H. compute_done.
Defined.

(** ** The canvas height is at least 500 *)

Lemma nonneg_cases (a : number) :
  Number.nonneg a <-> a = PosInf \/ exists q : Qc, a = Fin q /\ (0 <= q)%Qc.
Proof.
  unfold Number.nonneg. destruct a.
  - split; [done|]. intros [?|(? & ? & ?)]; done.
  - split; [by left|done].
  - split; [done|]. intros [?|(? & ? & ?)]; done.
  - unfold Number.of_Z. rewrite leb_Fin, Z2Qc_inj_0. split.
    + intros H%bool_decide_eq_true_1. right. eauto.
    + intros [?|(? & [= <-] & ?)]; [done|]. by apply bool_decide_eq_true_2.
Qed.

Lemma nonneg_Fin (q : Qc) : Number.nonneg (Fin q) <-> (0 <= q)%Qc.
Proof.
  rewrite nonneg_cases. split.
  - by intros [?|(? & [= <-] & ?)].
  - right. eauto.
Qed.

Lemma Qc_of_Z_nonneg (z : Z) : 0 <= z -> (0 <= Qc_of_Z z)%Qc.
Proof.
  intros Hz. rewrite <- Z2Qc_inj_0. by apply (proj1 (Z2Qc_inj_le 0 z)).
Qed.

Lemma nonneg_of_nat (n : nat) : Number.nonneg (Number.of_nat n).
Proof. apply nonneg_Fin, Qc_of_Z_nonneg. lia. Qed.

Lemma nonneg_not_nan (a : number) : Number.nonneg a -> a <> NaN.
Proof. by intros H ->. Qed.

Lemma nonneg_add (a b : number) :
  Number.nonneg a -> Number.nonneg b -> Number.nonneg (a + b)%js.
Proof.
  rewrite !nonneg_cases.
  intros [->|(x & -> & Hx)] [->|(y & -> & Hy)]; cbn; eauto.
  right. eexists. split; [done|]. by apply Qcplus_nonneg_nonneg.
Qed.

Lemma nonneg_mul_Fin (x y : Qc) :
  (0 <= x)%Qc -> (0 <= y)%Qc -> Number.nonneg (Fin x * Fin y)%js.
Proof. intros Hx Hy. apply nonneg_Fin. by apply Qcmult_nonneg_nonneg. Qed.

Lemma nonneg_ceil (a : number) : Number.nonneg a -> Number.nonneg (Math.ceil a).
Proof.
  rewrite !nonneg_cases. intros [->|(x & -> & Hx)]; [by left|right].
  eexists. split; [done|]. apply Qc_of_Z_nonneg.
  rewrite <- (Qceiling_Z 0). by apply Qceiling_resp_le.
Qed.

Lemma max_ge_l (a b : number) :
  a <> NaN -> b <> NaN -> (Math.max a b >=? a)%js = true.
Proof. intros Ha Hb. number_cases; qc_lra. Qed.

Lemma nonneg_gtb (a b : number) :
  Number.nonneg a -> (b >? a)%js = true -> Number.nonneg b.
Proof. unfold Number.nonneg. intros Ha Hb. number_cases; qc_lra. Qed.

Lemma nonneg_max_l (a b : number) :
  Number.nonneg a -> b <> NaN -> Number.nonneg (Math.max a b).
Proof. unfold Number.nonneg. intros Ha Hb. number_cases; qc_lra. Qed.

(** [v || 0] is never negative when [v] is at least some [c >= 0] or is
    [NaN]. *)
Lemma nonneg_max_or (c rh : number) :
  Number.nonneg c -> Number.nonneg (Math.max c rh || 0)%js.
Proof.
  intros Hc. destruct (decide (rh = NaN)) as [->|Hrh].
  - by destruct c.
  - pose proof (nonneg_max_l c rh Hc Hrh) as Hm.
    unfold Number.or. by destruct (Number.truthy _).
Qed.

(** The padding and the gap are finite and positive for an integer width. *)
Lemma scaled_constant (W : Z) (k : Z) :
  0 <= k ->
  exists p : Qc, (k * globalScale W)%js = Fin p /\ (0 <= p)%Qc
                 /\ (p <= Qc_of_Z k * Q2Qc (11 # 10))%Qc.
Proof.
  intros Hk. destruct (globalScale_range W) as (g & -> & Hlo & Hhi).
  eexists. split; [reflexivity|].
  pose proof (Qc_of_Z_nonneg k Hk) as Hk'.
  split.
  - apply Qcmult_nonneg_nonneg; [done|]. qc_lra.
  - rewrite !(Qcmult_comm (Qc_of_Z k)). by apply Qcmult_le_compat_r.
Qed.

Lemma padding_nonneg (W : Z) : Number.nonneg (padding W).
Proof.
  destruct (scaled_constant W 20) as (p & Hp & H0 & _); [lia|].
  unfold padding. rewrite Hp. by apply nonneg_Fin.
Qed.

Section HeightBound.

Variable JSON_stringify : Item -> string.
Variable items : list Item.
Variable cols : number.
Variable maxW : number.
Variable W : Z.
Variable naturalSizes : gmap string Dim.

Lemma freeStep_nonneg (m : number) (ip : Item * Pos) :
  Number.nonneg m ->
  Number.nonneg (freeStep JSON_stringify maxW W naturalSizes m ip).
Proof.
  intros Hm. unfold freeStep.
  destruct (_ >? m)%js eqn:E; [|done]. by eapply nonneg_gtb.
Qed.

Lemma fold_freeStep_nonneg (l : list (Item * Pos)) (m : number) :
  Number.nonneg m ->
  Number.nonneg (fold_left (freeStep JSON_stringify maxW W naturalSizes) l m).
Proof.
  revert m. induction l as [|ip l IH]; intros m Hm; [done|].
  cbn. by apply IH, freeStep_nonneg.
Qed.

Lemma freeHeight_ge_500 :
  (freeHeight JSON_stringify items cols maxW W naturalSizes >=? 500)%js = true.
Proof.
  unfold freeHeight. apply max_ge_l; [done|].
  apply nonneg_not_nan, nonneg_ceil, nonneg_add; [|apply padding_nonneg].
  by apply fold_freeStep_nonneg.
Qed.

(** Every height stored in [rowHeights] reads, through [|| 0], as a
    number that is not negative. *)
Lemma JsMap_get_nonneg (r : number) (m : JsMap.t) :
  Forall (fun kv => Number.nonneg (kv.2 || 0)%js) m ->
  Number.nonneg (or_undefined (JsMap.get r m) 0).
Proof.
  induction 1 as [|[k v] m Hkv _ IH]; cbn; [done|].
  by destruct (decide (r = k)).
Qed.

Lemma JsMap_set_nonneg (k v : number) (m : JsMap.t) :
  Number.nonneg (v || 0)%js ->
  Forall (fun kv => Number.nonneg (kv.2 || 0)%js) m ->
  Forall (fun kv => Number.nonneg (kv.2 || 0)%js) (JsMap.set k v m).
Proof.
  intros Hv. induction 1 as [|[k' v'] m Hkv Hm IH]; cbn.
  - by constructor.
  - destruct (decide (k = k')); by constructor.
Qed.

Lemma gridStep_nonneg (m : JsMap.t) (ip : Item * Pos) :
  Forall (fun kv => Number.nonneg (kv.2 || 0)%js) m ->
  Forall (fun kv => Number.nonneg (kv.2 || 0)%js)
         (gridStep JSON_stringify maxW W naturalSizes m ip).
Proof.
  intros Hm. unfold gridStep. destruct (ip.2); [done|].
  apply JsMap_set_nonneg; [|done].
  by apply nonneg_max_or, JsMap_get_nonneg.
Qed.

Lemma fold_gridStep_nonneg (l : list (Item * Pos)) (m : JsMap.t) :
  Forall (fun kv => Number.nonneg (kv.2 || 0)%js) m ->
  Forall (fun kv => Number.nonneg (kv.2 || 0)%js)
         (fold_left (gridStep JSON_stringify maxW W naturalSizes) l m).
Proof.
  revert m. induction l as [|ip l IH]; intros m Hm; [done|].
  cbn. by apply IH, gridStep_nonneg.
Qed.

Lemma fold_sum_nonneg (m : JsMap.t) (rs : list number) (acc : number) :
  Forall (fun kv => Number.nonneg (kv.2 || 0)%js) m ->
  Number.nonneg acc ->
  Number.nonneg
    (fold_left (fun acc r => (acc + or_undefined (JsMap.get r m) 0)%js) rs acc).
Proof.
  intros Hm. revert acc. induction rs as [|r rs IH]; intros acc Hacc; [done|].
  cbn. apply IH, nonneg_add; [done|]. by apply JsMap_get_nonneg.
Qed.

Lemma gap_count_nonneg (n : nat) :
  exists q : Qc, Math.max 0 (Number.of_nat n - 1)%js = Fin q /\ (0 <= q)%Qc.
Proof.
  unfold Number.of_nat, Number.of_Z, Number.sub. cbn [Number.neg Number.add].
  rewrite max_Fin. eexists. split; [done|].
  case_bool_decide as H; [by apply Qclt_le_weak|]. by apply Qc_of_Z_nonneg.
Qed.

Lemma totalGaps_nonneg :
  Number.nonneg (totalGaps JSON_stringify items cols maxW W naturalSizes).
Proof.
  unfold totalGaps, gapY.
  destruct (gap_count_nonneg
              (length (rows JSON_stringify items cols maxW W naturalSizes)))
    as (q & -> & Hq).
  destruct (scaled_constant W 40) as (p & -> & Hp & _); [lia|].
  by apply nonneg_mul_Fin.
Qed.

Lemma labelPadPerRow_nonneg :
  Number.nonneg (labelPadPerRow JSON_stringify items cols maxW W naturalSizes).
Proof.
  unfold labelPadPerRow. apply nonneg_mul_Fin; apply Qc_of_Z_nonneg; lia.
Qed.

Lemma gridHeight_ge_500 :
  (gridHeight JSON_stringify items cols maxW W naturalSizes >=? 500)%js = true.
Proof.
  unfold gridHeight. apply max_ge_l; [done|].
  apply nonneg_not_nan, nonneg_ceil.
  repeat apply nonneg_add;
    auto using padding_nonneg, totalGaps_nonneg, labelPadPerRow_nonneg.
  apply fold_sum_nonneg; [|by apply nonneg_Fin, Qc_of_Z_nonneg].
  apply fold_gridStep_nonneg. constructor.
Qed.

End HeightBound.

(** C1. For every item list, container width and registry of natural
    sizes (and every [cols] and [maxW]), the canvas height the sizing
    effect computes, by whichever of its three branches, is at least
    500. *)
Theorem canvas_height_at_least_500 :
  forall (JSON_stringify : Item -> string) (items : list Item)
         (cols maxW : number) (W : Z) (naturalSizes : gmap string Dim),
    (canvasHeight JSON_stringify items cols maxW W naturalSizes >=? 500)%js
    = true.
Proof.
  intros. unfold canvasHeight.
  case_bool_decide; [done|].
  destruct (anyFree _ _ _);
    [apply freeHeight_ge_500 | apply gridHeight_ge_500].
Qed.

(** ** Free-mode sizing *)

Lemma or_0_not_nan (a : number) : a <> NaN -> (a || 0)%js = a.
Proof.
  intros Ha. unfold Number.or. destruct a; try done. cbn.
  destruct (decide _) as [->|]; [|done]. symmetry. apply Fin_of_Z_0.
Qed.

Lemma add_not_nan (a b : number) :
  (a + b)%js <> NaN -> a <> NaN /\ b <> NaN.
Proof. by destruct a, b. Qed.

Lemma max_not_nan (a b : number) :
  a <> NaN -> b <> NaN -> Math.max a b <> NaN.
Proof. intros Ha Hb. number_cases. Qed.

Lemma max_list_not_nan (l : list number) :
  Forall (fun b => b <> NaN) l -> Spec.max_list l <> NaN.
Proof.
  induction 1 as [|b l Hb _ IH]; [done|]. cbn. by apply max_not_nan.
Qed.

(** Without [NaN] the comparison of the loop is [Math.max]. *)
Lemma gtb_max (m b : number) :
  m <> NaN -> b <> NaN -> (if (b >? m)%js then b else m) = Math.max m b.
Proof. intros Hm Hb. by destruct m, b. Qed.

Section FreeSizing.

Variable JSON_stringify : Item -> string.
Variable maxW : number.
Variable W : Z.
Variable naturalSizes : gmap string Dim.

Lemma fold_freeStep_max (l : list (Item * Pos)) (m : number) :
  m <> NaN ->
  Forall (fun b => b <> NaN)
    ((fun ip : Item * Pos =>
        (Pos.y ip.2
         + Spec.renderedHeightOf JSON_stringify maxW W naturalSizes ip.1
         + 24)%js) <$> l) ->
  fold_left (freeStep JSON_stringify maxW W naturalSizes) l m =
  Math.max m
    (Spec.max_list
       ((fun ip : Item * Pos =>
           (Pos.y ip.2
            + Spec.renderedHeightOf JSON_stringify maxW W naturalSizes ip.1
            + 24)%js) <$> l)).
Proof.
  revert m. induction l as [|ip l IH]; intros m Hm Hl.
  - cbn. by rewrite max_NegInf_r.
  - rewrite fmap_cons in Hl. apply Forall_cons in Hl as [Hb Hl].
    cbn [fold_left]. rewrite fmap_cons. cbn [Spec.max_list foldr].
    assert (freeStep JSON_stringify maxW W naturalSizes m ip =
            Math.max m
              (Pos.y ip.2
               + Spec.renderedHeightOf JSON_stringify maxW W naturalSizes ip.1
               + 24)%js) as ->.
    { unfold freeStep, Spec.renderedHeightOf in *.
      pose proof Hb as [[Hy _]%add_not_nan _]%add_not_nan.
      rewrite (or_0_not_nan _ Hy). by apply gtb_max. }
    rewrite IH by (by try apply max_not_nan). by rewrite max_assoc.
Qed.

End FreeSizing.

(** Raising the largest bottom to 0 does not show once the height is
    raised to 500: the padding is at most 22. *)
Lemma free_floor_hidden (M : number) (p : Qc) :
  M <> NaN -> (0 <= p)%Qc -> (p <= Qc_of_Z 22)%Qc ->
  Math.max 500 (Math.ceil (Math.max 0 M + Fin p)%js) =
  Math.max 500 (Math.ceil (M + Fin p)%js).
Proof.
  intros HM Hp0 Hp.
  assert (forall q : Qc, (q <= Qc_of_Z 22)%Qc ->
            Math.max 500 (Math.ceil (Fin q)) = 500) as Hsmall.
  { intros q Hq. cbn [Math.ceil]. unfold Number.of_Z. rewrite max_Fin.
    rewrite bool_decide_eq_false_2; [done|]. intros Hlt.
    apply Z2Qc_inj_lt in Hlt.
    assert (Qceiling q <= Qceiling (inject_Z 22)) as Hc
      by (apply Qceiling_resp_le; qc_lra).
    rewrite Qceiling_Z in Hc. lia. }
  destruct M as [| | |m]; [done|done| |].
  - change (Math.max 0 NegInf) with (Fin (Qc_of_Z 0)).
    cbn [Number.add]. rewrite Hsmall; [done|]. qc_lra.
  - unfold Number.of_Z at 2. rewrite (max_Fin _ m).
    case_bool_decide as Hm; [done|].
    cbn [Number.add]. rewrite !Hsmall; [done| |].
    + apply Qcnot_lt_le in Hm. qc_lra.
    + qc_lra.
Qed.

Lemma padding_Fin (W : Z) :
  exists p : Qc, padding W = Fin p /\ (0 <= p)%Qc /\ (p <= Qc_of_Z 22)%Qc.
Proof.
  destruct (scaled_constant W 20) as (p & Hp & H0 & H22); [lia|].
  exists p. split_and!; [done|done|]. qc_lra.
Qed.

Lemma free_height_spec (JSON_stringify : Item -> string) (items : list Item)
  (cols maxW : number) (W : Z) (naturalSizes : gmap string Dim) :
  Forall (fun b => b <> NaN)
         (Spec.bottoms JSON_stringify items cols maxW W naturalSizes) ->
  freeHeight JSON_stringify items cols maxW W naturalSizes =
  Spec.freeHeight JSON_stringify items cols maxW W naturalSizes.
Proof.
  intros Hb. unfold freeHeight, Spec.freeHeight, maxBottom.
  rewrite fold_freeStep_max by done.
  fold (Spec.bottoms JSON_stringify items cols maxW W naturalSizes).
  fold (padding W).
  destruct (padding_Fin W) as (p & -> & Hp0 & Hp).
  apply free_floor_hidden; [|done..]. by apply max_list_not_nan.
Qed.




(** ** Grid-mode sizing *)

(** *** The map of row heights *)

Lemma JsMap_get_set (r k v : number) (m : JsMap.t) :
  JsMap.get r (JsMap.set k v m) =
  if decide (r = k) then Some v else JsMap.get r m.
Proof.
  induction m as [|[k' v'] m IH]; cbn.
  - by destruct (decide (r = k)).
  - destruct (decide (k = k')) as [->|Hk]; cbn.
    + by destruct (decide (r = k')).
    + destruct (decide (r = k')) as [->|Hr].
      * by rewrite decide_False by done.
      * exact IH.
Qed.

Lemma JsMap_keys_set (k v : number) (m : JsMap.t) :
  JsMap.keys (JsMap.set k v m) =
  if decide (k ∈ JsMap.keys m) then JsMap.keys m else JsMap.keys m ++ [k].
Proof.
  unfold JsMap.keys. induction m as [|[k' v'] m IH]; cbn.
  - rewrite decide_False; [done|]. apply not_elem_of_nil.
  - destruct (decide (k = k')) as [->|Hk]; cbn.
    + rewrite decide_True; [done|]. apply elem_of_cons. by left.
    + rewrite IH. destruct (decide (k ∈ m.*1)) as [Hin|Hin].
      * rewrite decide_True; [done|]. apply elem_of_cons. by right.
      * rewrite decide_False; [done|]. rewrite elem_of_cons. by intros [?|?].
Qed.

Lemma JsMap_keys_set_NoDup (k v : number) (m : JsMap.t) :
  NoDup (JsMap.keys m) -> NoDup (JsMap.keys (JsMap.set k v m)).
Proof.
  intros Hm. rewrite JsMap_keys_set. destruct (decide _) as [Hin|Hin]; [done|].
  apply NoDup_app. split_and!; [done| |apply NoDup_singleton].
  intros x Hx ->%list_elem_of_singleton. done.
Qed.

Lemma JsMap_keys_set_elem (r k v : number) (m : JsMap.t) :
  r ∈ JsMap.keys (JsMap.set k v m) <-> r = k \/ r ∈ JsMap.keys m.
Proof.
  rewrite JsMap_keys_set. destruct (decide _) as [Hin|Hin].
  - split; [by right|]. by intros [->|?].
  - rewrite elem_of_app, list_elem_of_singleton. tauto.
Qed.

Lemma max_list_cons (a : number) (l : list number) :
  Spec.max_list (a :: l) = Math.max a (Spec.max_list l).
Proof. reflexivity. Qed.

Lemma max_list_app (l k : list number) :
  Spec.max_list (l ++ k) = Math.max (Spec.max_list l) (Spec.max_list k).
Proof.
  induction l as [|a l IH].
  - by rewrite max_NegInf_l.
  - cbn [app]. by rewrite !max_list_cons, IH, max_assoc.
Qed.

Lemma max_0_nonneg (v : number) : Number.nonneg v -> Math.max 0 v = v.
Proof. unfold Number.nonneg. intros Hv. number_cases; f_equal; qc_lra. Qed.

Lemma Forall_nonneg_not_nan (l : list number) :
  Forall Number.nonneg l -> Forall (fun b => b <> NaN) l.
Proof. intros H. eapply Forall_impl; [exact H|]. apply nonneg_not_nan. Qed.

Lemma row_values_nonneg (es : list (number * number)) (r : number) :
  Forall (fun e => Number.nonneg e.2) es ->
  Forall Number.nonneg (filter (fun e => e.1 = r) es).*2.
Proof.
  intros Hes. apply Forall_fmap, Forall_forall.
  intros e [_ He]%list_elem_of_filter.
  rewrite Forall_forall in Hes. by apply Hes.
Qed.

Lemma row_filter_nil (es : list (number * number)) (r : number) :
  r ∉ es.*1 -> filter (fun e => e.1 = r) es = [].
Proof.
  induction es as [|e es IH]; [done|].
  rewrite fmap_cons, not_elem_of_cons. intros [Hr Hes].
  rewrite filter_cons_False by congruence. by apply IH.
Qed.

(** After the loop a row holds the maximum of the heights recorded for
    it, provided none of them is negative (or [NaN]). *)
Lemma recordRow_fold_get (es : list (number * number)) (r : number) :
  Forall (fun e => Number.nonneg e.2) es ->
  JsMap.get r (fold_left recordRow es []) =
  if decide (r ∈ es.*1)
  then Some (Spec.max_list (filter (fun e => e.1 = r) es).*2)
  else None.
Proof.
  induction es as [|[r0 v0] es IH] using rev_ind; intros Hes.
  - cbn. rewrite decide_False; [done|]. apply not_elem_of_nil.
  - apply Forall_app in Hes as [Hes [Hv0 _]%Forall_cons].
    specialize (IH Hes). cbn in Hv0.
    rewrite fold_left_app. cbn [fold_left]. unfold recordRow at 1. cbn [fst snd].
    rewrite JsMap_get_set, fmap_app, filter_app, fmap_app, max_list_app.
    cbn [fmap list_fmap fst].
    destruct (decide (r = r0)) as [->|Hr].
    + destruct (decide (r0 ∈ es.*1 ++ [r0])) as [_|Hn].
      2:{ destruct Hn. apply elem_of_app. right. by apply list_elem_of_singleton. }
      f_equal. rewrite filter_cons_True by done.
      rewrite filter_nil. cbn [fmap list_fmap snd]. rewrite max_list_cons.
      change (Spec.max_list []) with NegInf.
      rewrite max_NegInf_r, IH.
      destruct (decide (r0 ∈ es.*1)) as [Hin|Hin]; cbn [or_undefined].
      * rewrite or_0_not_nan; [done|].
        by apply max_list_not_nan, Forall_nonneg_not_nan, row_values_nonneg.
      * rewrite row_filter_nil by done.
        change (Spec.max_list []) with NegInf.
        by rewrite max_NegInf_l, max_0_nonneg.
    + rewrite filter_cons_False by (cbn; congruence).
      rewrite filter_nil. change (Spec.max_list []) with NegInf.
      rewrite max_NegInf_r, IH.
      destruct (decide (r ∈ es.*1)) as [Hin|Hin].
      * rewrite decide_True; [done|]. apply elem_of_app. by left.
      * rewrite decide_False; [done|].
        rewrite elem_of_app, list_elem_of_singleton. by intros [?|?].
Qed.

(** The keys of the map are the rows met, each once. *)
Lemma recordRow_fold_keys (es : list (number * number)) :
  NoDup (JsMap.keys (fold_left recordRow es []))
  /\ forall r : number, r ∈ JsMap.keys (fold_left recordRow es []) <-> r ∈ es.*1.
Proof.
  induction es as [|[r0 v0] es [IHnd IHin]] using rev_ind.
  - split; [constructor|done].
  - rewrite fold_left_app. cbn [fold_left]. unfold recordRow at 1 3.
    cbn [fst snd]. split.
    + by apply JsMap_keys_set_NoDup.
    + intros r. rewrite JsMap_keys_set_elem, IHin, fmap_app, elem_of_app.
      cbn. rewrite list_elem_of_singleton. tauto.
Qed.

(** *** The sorted rows and the sum of their heights *)

Lemma ArraySort_insert_perm (a : number) (l : list number) :
  ArraySort.insert a l ≡ₚ a :: l.
Proof.
  induction l as [|b l IH]; cbn; [done|].
  destruct (_ >? 0)%js; [|done].
  rewrite IH. apply Permutation_swap.
Qed.

Lemma ArraySort_sort_perm (l : list number) : ArraySort.sort l ≡ₚ l.
Proof.
  induction l as [|a l IH]; cbn; [done|].
  fold (ArraySort.sort l). by rewrite ArraySort_insert_perm, IH.
Qed.

Lemma sum_list_cons (a : number) (l : list number) :
  Spec.sum_list (a :: l) = (a + Spec.sum_list l)%js.
Proof. reflexivity. Qed.

Lemma sum_list_perm (l k : list number) :
  l ≡ₚ k -> Spec.sum_list l = Spec.sum_list k.
Proof.
  induction 1 as [|a l k _ IH|a b l|l k m _ IH1 _ IH2].
  - done.
  - by rewrite !sum_list_cons, IH.
  - rewrite !sum_list_cons, !add_assoc. by rewrite (add_comm b a).
  - by rewrite IH1.
Qed.

(** The [reduce] that adds the row heights is the sum of the list. *)
Lemma fold_left_add (f : number -> number) (l : list number) (acc : number) :
  fold_left (fun acc r => (acc + f r)%js) l acc =
  (acc + Spec.sum_list (f <$> l))%js.
Proof.
  revert acc. induction l as [|r l IH]; intros acc; cbn [fold_left].
  - cbn. by rewrite add_0_r.
  - rewrite IH, fmap_cons, sum_list_cons. by rewrite add_assoc.
Qed.

(** The sum does not depend on the order in which the rows are read. *)
Lemma sum_rows_any_order (m : JsMap.t) (l k : list number) :
  l ≡ₚ k ->
  fold_left (fun acc r => (acc + or_undefined (JsMap.get r m) 0)%js) l 0
  = fold_left (fun acc r => (acc + or_undefined (JsMap.get r m) 0)%js) k 0.
Proof.
  intros Hlk.
  rewrite !(fold_left_add (fun r => or_undefined (JsMap.get r m) 0)).
  f_equal. by apply sum_list_perm, fmap_Permutation.
Qed.

(** *** From the items to their [(row, height)] entries *)

Lemma mode_grid_undeclared (item : Item) :
  Spec.mode item = grid -> Item.x item = None /\ Item.y item = None.
Proof. unfold Spec.mode. by destruct (Item.x item), (Item.y item). Qed.

Section GridEntries.

Variable JSON_stringify : Item -> string.
Variable cols : number.
Variable maxW : number.
Variable size_w : number.
Variable naturalSizes : gmap string Dim.

Lemma gridStep_recordRow (m : JsMap.t) (i : nat) (it : Item) :
  Spec.mode it = grid ->
  gridStep JSON_stringify maxW size_w naturalSizes m
           (it, position cols size_w i it)
  = recordRow m (Spec.rowOf cols i,
                 Spec.renderedHeightOf JSON_stringify maxW size_w naturalSizes it).
Proof.
  intros [Hx Hy]%mode_grid_undeclared. by rewrite position_grid.
Qed.

Lemma fold_gridStep_entries (l : list Item) (f : nat -> Item -> Pos)
  (e : nat -> Item -> number * number) (m : JsMap.t) :
  (forall m' i it,
      it ∈ l ->
      gridStep JSON_stringify maxW size_w naturalSizes m' (it, f i it)
      = recordRow m' (e i it)) ->
  fold_left (gridStep JSON_stringify maxW size_w naturalSizes)
            (zip l (imap f l)) m
  = fold_left recordRow (imap e l) m.
Proof.
  revert f e m. induction l as [|it l IH]; intros f e m Hfe; [done|].
  cbn. rewrite Hfe by (apply elem_of_cons; by left).
  apply IH. intros m' i it' Hin. apply Hfe, elem_of_cons. by right.
Qed.

Lemma rowHeights_entries (items : list Item) :
  anyFree items cols size_w = false ->
  rowHeights JSON_stringify items cols maxW size_w naturalSizes
  = fold_left recordRow
      (Spec.rowEntries JSON_stringify items cols maxW size_w naturalSizes) [].
Proof.
  intros Hgrid%anyFree_false. unfold rowHeights, positions, Spec.rowEntries.
  apply fold_gridStep_entries. intros m' i it Hin.
  apply gridStep_recordRow. rewrite Forall_forall in Hgrid. by apply Hgrid.
Qed.

End GridEntries.

(** *** The grid height *)

Lemma gap_count_pos (n : nat) :
  (1 <= n)%nat ->
  Math.max 0 (Number.of_nat n - 1)%js = (Number.of_nat n - 1)%js.
Proof.
  intros Hn. unfold Number.of_nat, Number.of_Z, Number.sub.
  cbn [Number.neg Number.add]. rewrite max_Fin. f_equal.
  case_bool_decide as H; [done|].
  assert (0 <= Z.of_nat n - 1) as Hz%Qc_of_Z_nonneg by lia.
  rewrite Z2Qc_inj_sub in Hz. qc_lra.
Qed.

Lemma twice_add (a : number) : (2 * a)%js = (a + a)%js.
Proof.
  destruct a as [| | |q]; try done. cbn. f_equal. rewrite Z2Qc_inj_2. ring.
Qed.

Lemma layout_sum (p S G L : number) :
  (p + S + G + L + p)%js = (S + G + L + 2 * p)%js.
Proof.
  rewrite twice_add, <- !add_assoc.
  rewrite (add_comm p (S + _)%js). by rewrite <- !add_assoc.
Qed.

Section GridSizing.

Variable JSON_stringify : Item -> string.
Variable items : list Item.
Variable cols : number.
Variable maxW : number.
Variable size_w : number.
Variable naturalSizes : gmap string Dim.

Hypothesis Hgrid : anyFree items cols size_w = false.
Hypothesis Hheights :
  Forall (fun e => Number.nonneg e.2)
         (Spec.rowEntries JSON_stringify items cols maxW size_w naturalSizes).

Lemma rows_perm :
  rows JSON_stringify items cols maxW size_w naturalSizes
  ≡ₚ Spec.distinctRows JSON_stringify items cols maxW size_w naturalSizes.
Proof.
  unfold rows, Spec.distinctRows.
  rewrite ArraySort_sort_perm, rowHeights_entries by done.
  destruct (recordRow_fold_keys
              (Spec.rowEntries JSON_stringify items cols maxW size_w naturalSizes))
    as [Hnd Hin].
  apply NoDup_Permutation; [done|apply NoDup_remove_dups|].
  intros r. by rewrite Hin, elem_of_remove_dups.
Qed.

Lemma row_height_read (r : number) :
  r ∈ rows JSON_stringify items cols maxW size_w naturalSizes ->
  or_undefined
    (JsMap.get r (rowHeights JSON_stringify items cols maxW size_w naturalSizes))
    0
  = Spec.rowHeight JSON_stringify items cols maxW size_w naturalSizes r.
Proof.
  rewrite rows_perm. unfold Spec.distinctRows. rewrite elem_of_remove_dups.
  intros Hr. rewrite rowHeights_entries, recordRow_fold_get by done.
  rewrite decide_True by done. cbn [or_undefined]. apply or_0_not_nan.
  by apply max_list_not_nan, Forall_nonneg_not_nan, row_values_nonneg.
Qed.

Lemma sumHeights_spec :
  sumHeights JSON_stringify items cols maxW size_w naturalSizes
  = Spec.sum_list
      (Spec.rowHeight JSON_stringify items cols maxW size_w naturalSizes
         <$> Spec.distinctRows JSON_stringify items cols maxW size_w naturalSizes).
Proof.
  unfold sumHeights.
  rewrite (fold_left_add
             (fun r => or_undefined
                         (JsMap.get r (rowHeights JSON_stringify items cols maxW
                                                  size_w naturalSizes)) 0)).
  rewrite add_0_l.
  transitivity
    (Spec.sum_list
       (Spec.rowHeight JSON_stringify items cols maxW size_w naturalSizes
          <$> rows JSON_stringify items cols maxW size_w naturalSizes)).
  - f_equal. apply Forall_fmap_ext, Forall_forall. intros r Hr.
    by apply row_height_read.
  - apply sum_list_perm, fmap_Permutation, rows_perm.
Qed.

Lemma rows_nonempty :
  items <> [] ->
  (1 <= length (rows JSON_stringify items cols maxW size_w naturalSizes))%nat.
Proof.
  intros Hne. rewrite rows_perm. unfold Spec.distinctRows, Spec.rowEntries.
  destruct items as [|it l]; [done|]. cbn [imap fmap list_fmap].
  match goal with
  | |- (1 <= length (remove_dups (?r :: ?k)))%nat =>
      assert (r ∈ remove_dups (r :: k)) as Hin
        by (apply elem_of_remove_dups, elem_of_cons; by left);
      destruct (remove_dups (r :: k)); [by apply elem_of_nil in Hin|cbn; lia]
  end.
Qed.

Lemma grid_height_spec :
  items <> [] ->
  gridHeight JSON_stringify items cols maxW size_w naturalSizes
  = Spec.gridHeight JSON_stringify items cols maxW size_w naturalSizes.
Proof.
  intros Hne. unfold gridHeight, Spec.gridHeight, totalGaps, labelPadPerRow.
  rewrite gap_count_pos by (by apply rows_nonempty).
  rewrite sumHeights_spec, (Permutation_length rows_perm).
  by rewrite layout_sum.
Qed.

End GridSizing.




(** ** Rendered height on a positive natural size *)

Lemma Qcdiv_nonneg (x y : Qc) : (0 <= x)%Qc -> (0 < y)%Qc -> (0 <= x / y)%Qc.
Proof.
  intros Hx Hy. unfold Qcdiv. apply Qcmult_nonneg_nonneg; [done|].
  by apply Qclt_le_weak, Qcinv_pos.
Qed.

Lemma Qc_pos_nonzero (y : Qc) : (0 < y)%Qc -> y <> 0%Qc.
Proof. intros Hy ->. by apply Qclt_not_eq in Hy. Qed.

Lemma scale_by_dimension (d g n : Qc) :
  (0 <= d)%Qc -> (0 <= g)%Qc -> (0 < n)%Qc ->
  ((Fin d * Fin g) / Fin n)%js = Fin (d * g / n) /\ (0 <= d * g / n)%Qc.
Proof.
  intros Hd Hg Hn. split.
  - cbn [Number.mul]. by apply div_Fin, Qc_pos_nonzero.
  - apply Qcdiv_nonneg; [|done]. by apply Qcmult_nonneg_nonneg.
Qed.


Lemma rendered_height_nonneg (item : Item) (maxW : number) (W : Z)
  (natW natH d : Qc) :
  (0 < natW)%Qc ->
  (0 < natH)%Qc ->
  Spec.drivingDim item maxW = Fin d ->
  (0 <= d)%Qc ->
  (exists s : Qc,
      Spec.effectiveScale item (globalScale W) maxW (Fin natW) (Fin natH)
      = Fin s /\ (0 <= s)%Qc)
  /\ (exists r : Qc,
         getRenderedHeight maxW W item (Some (Dim.mk (Fin natW) (Fin natH)))
         = Fin r /\ (0 <= r)%Qc).
Proof.
  intros HW HH Hd Hd0.
  destruct (globalScale_range W) as (g & Hg & Hlo & _).
  assert (0 <= g)%Qc as Hg0 by qc_lra.
  assert (exists s : Qc,
             Spec.effectiveScale item (globalScale W) maxW (Fin natW) (Fin natH)
             = Fin s /\ (0 <= s)%Qc) as (s & Hs & Hs0).
  { unfold Spec.effectiveScale, Spec.drivingDim in *. rewrite Hg.
    destruct (Item.w item) as [w|], (Item.h item) as [h|]; subst.
    - destruct (scale_by_dimension d g natW) as [-> ?]; eauto.
    - destruct (scale_by_dimension d g natW) as [-> ?]; eauto.
    - destruct (scale_by_dimension d g natH) as [-> ?]; eauto.
    - destruct (scale_by_dimension d g natW) as [-> ?]; try done.
      unfold Number.of_Z. rewrite min_Fin. eexists. split; [done|].
      case_bool_decide; [done|]. by apply Qc_of_Z_nonneg. }
  split; [by eauto|].
  rewrite getRenderedHeight_known. cbn [Dim.w Dim.h]. rewrite Hs.
  eexists. split; [done|].
  apply Qcmult_nonneg_nonneg; [by apply Qclt_le_weak|done].
Qed.





(** ** Keys *)

Lemma no_dash_app_dash (r d : string) : ~ no_dash (r +:+ String "-" d).
Proof.
  induction r as [|c r IH]; cbn.
  - by intros [? _].
  - intros [_ H]. by apply IH.
Qed.

(** The text after the last [-] determines itself. *)
Lemma app_dash_inj (s s' d d' : string) :
  no_dash d -> no_dash d' ->
  s +:+ String "-" d = s' +:+ String "-" d' -> d = d'.
Proof.
  intros Hd Hd'. revert s'.
  induction s as [|c r IH]; intros [|c' r']; cbn; intros E.
  - by injection E.
  - injection E as _ E. subst d. by apply no_dash_app_dash in Hd.
  - injection E as _ E. subst d'. by apply no_dash_app_dash in Hd'.
  - injection E as _ E. by apply (IH r').
Qed.

Lemma no_dash_pretty_N_go (x : N) (s : string) :
  no_dash s -> no_dash (pretty_N_go x s).
Proof.
  revert s. induction (N.lt_wf_0 x) as [x _ IH]. intros s Hs.
  destruct (decide (x = 0%N)) as [->|Hx].
  - by rewrite pretty_N_go_0.
  - rewrite pretty_N_go_step by lia. apply IH.
    + apply N.div_lt; lia.
    + split; [|done]. unfold pretty_N_char. by repeat case_match.
Qed.

Lemma no_dash_pretty_nat (n : nat) : no_dash (pretty n).
Proof.
  unfold pretty, pretty_nat, pretty, pretty_N.
  case_decide; [by split|]. by apply no_dash_pretty_N_go.
Qed.

Lemma mediaKey_inj (item item' : Item) (i j : nat) :
  mediaKey item i = mediaKey item' j -> i = j.
Proof.
  unfold mediaKey. intros E.
  change (?s +:+ "-" +:+ ?d) with (s +:+ String "-" d) in E.
  apply app_dash_inj in E; auto using no_dash_pretty_nat.
  by apply (inj pretty) in E.
Qed.

Lemma keyOf_identity (JSON_stringify : Item -> string) (item : Item) :
  keyOf JSON_stringify item = Spec.identityKey JSON_stringify item.
Proof.
  unfold keyOf, Spec.identityKey, str_or.
  by repeat (case_decide; try done).
Qed.

(** The node of an item is drawn at its planned position. *)
Lemma mediaNodes_lookup (items : list Item) (cols maxW size_w : number)
  (i : nat) (item : Item) :
  items !! i = Some item ->
  mediaNodes items cols maxW size_w !! i
  = Some (DraggableMedia.mkProps
            (mediaKey item i) item
            (Pos.x (position cols size_w i item))
            (Pos.y (position cols size_w i item))
            (globalScale size_w) maxW).
Proof.
  intros Hi. unfold mediaNodes. rewrite list_lookup_imap, Hi. cbn.
  unfold mediaNode.
  by rewrite (list_lookup_total_correct (positions items cols size_w) i
                (position cols size_w i item))
    by (by rewrite positions_lookup, Hi).
Qed.

Lemma mediaNodes_keys (items : list Item) (cols maxW size_w : number) :
  DraggableMedia.key <$> mediaNodes items cols maxW size_w
  = imap (fun i it => mediaKey it i) items.
Proof. unfold mediaNodes. by rewrite fmap_imap. Qed.

(** C9, as the code has it.  The key the controller gives the node of
    the item at index [i] is the item's title, or its url when the title
    is empty, followed by [-] and [i]: it depends on the title, the url
    and the index only, so a render pass with the same array gives the
    same keys whatever [cols], [maxW] and the width, and no two nodes
    share a key.  The identity key (url if non-empty, else title, else
    the serialized content) is the key of the natural-size registry:
    [handleNaturalSize] stores the size under it. *)
Theorem media_node_key :
  forall (JSON_stringify : Item -> string) (items : list Item)
         (cols maxW size_w : number),
    (forall (i : nat) (item : Item),
        items !! i = Some item ->
        DraggableMedia.key <$> mediaNodes items cols maxW size_w !! i
        = Some ((if decide (Item.title item = EmptyString)
                 then Item.url item else Item.title item)
                +:+ "-" +:+ pretty i))
    /\ (forall cols' maxW' size_w' : number,
           DraggableMedia.key <$> mediaNodes items cols' maxW' size_w'
           = DraggableMedia.key <$> mediaNodes items cols maxW size_w)
    /\ NoDup (DraggableMedia.key <$> mediaNodes items cols maxW size_w)
    /\ (forall item : Item,
           keyOf JSON_stringify item = Spec.identityKey JSON_stringify item)
    /\ (forall (item : Item) (dim : Dim) (prev : gmap string Dim),
           handleNaturalSize JSON_stringify item dim prev
             !! Spec.identityKey JSON_stringify item
           = Some dim).
Proof.
  intros JSON_stringify items cols maxW size_w. split_and!.
  - intros i item Hi. unfold mediaNodes.
    by rewrite list_lookup_imap, Hi.
  - intros. by rewrite !mediaNodes_keys.
  - rewrite mediaNodes_keys. apply NoDup_alt. intros i j k.
    rewrite !list_lookup_imap. intros Hi Hj.
    destruct (items !! i) as [it|]; [|done].
    destruct (items !! j) as [it'|]; [|done].
    cbn in Hi, Hj. injection Hi as <-. injection Hj as Hj.
    symmetry in Hj. by apply mediaKey_inj in Hj.
  - apply keyOf_identity.
  - intros. rewrite <- keyOf_identity. unfold handleNaturalSize.
    by rewrite lookup_insert_eq.
Qed.

(** C9 fails as stated: the node of the photo has the key ["photo-0"],
    its identity key is its url. *)
Lemma media_node_key_counterexample :
  DraggableMedia.key <$> mediaNodes [Sample.photo] 3 480 2560 = ["photo-0"]
  /\ Spec.identityKey Sample.stringify Sample.photo = "photo.png"
  /\ DraggableMedia.key <$> mediaNodes [Sample.photo] 3 480 2560
     <> [Spec.identityKey Sample.stringify Sample.photo].
Proof. split_and!; [reflexivity|reflexivity|discriminate]. Qed.

(** ** Ordinary inputs

    The conditions under which the two sizing formulas were proved hold
    for ordinary inputs: finite declared coordinates, finite declared
    dimensions and [maxW] that are not negative, natural sizes of
    positive width and height, and a whole number of columns. *)

Section Ordinary.

Variable JSON_stringify : Item -> string.
Variable items : list Item.
Variable c : nat.
Variable maxW : number.
Variable W : Z.
Variable naturalSizes : gmap string Dim.

Hypothesis Hcols : (0 < c)%nat.
Hypothesis HmaxW : Spec.finiteNonneg maxW.
Hypothesis Hitems : Forall Spec.ordinaryItem items.
Hypothesis Hregistry : Spec.ordinaryRegistry naturalSizes.

Lemma drivingDim_ordinary (it : Item) :
  Spec.ordinaryItem it -> Spec.finiteNonneg (Spec.drivingDim it maxW).
Proof.
  intros (_ & _ & Hw & Hh). unfold Spec.drivingDim.
  destruct (Item.w it) as [w|]; [by apply Hw|].
  destruct (Item.h it) as [h|]; [by apply Hh|done].
Qed.

Lemma renderedHeight_ordinary (it : Item) :
  Spec.ordinaryItem it ->
  Spec.finiteNonneg
    (Spec.renderedHeightOf JSON_stringify maxW W naturalSizes it).
Proof.
  intros Hit. unfold Spec.renderedHeightOf.
  destruct (naturalSizes !! keyOf JSON_stringify it) as [d|] eqn:E.
  - destruct (Hregistry _ _ E) as (a & b & -> & Ha & Hb).
    destruct (drivingDim_ordinary it Hit) as (q & Hq & Hq0).
    by destruct (rendered_height_nonneg it maxW W a b q Ha Hb Hq Hq0)
      as (_ & Hr).
  - exists 0%Qc. split; [|done]. cbn. by rewrite Fin_of_Z_0.
Qed.

Lemma position_y_ordinary (i : nat) (it : Item) :
  Spec.ordinaryItem it ->
  Spec.finite (Pos.y (position (Number.of_nat c) W i it)).
Proof.
  intros (_ & Hy & _ & _).
  destruct (globalScale_range W) as (g & Hg & _).
  unfold position, padding, gapY. rewrite Hg.
  destruct (_ || _).
  - cbn [Pos.y]. destruct (Item.y it) as [y|]; cbn [nullish].
    + destruct (Hy y eq_refl) as [q ->]. by eexists.
    + by eexists.
  - cbn [Pos.y]. rewrite floor_div_nat by done. by eexists.
Qed.

Lemma bottoms_ordinary :
  Forall (fun b => b <> NaN)
         (Spec.bottoms JSON_stringify items (Number.of_nat c) maxW W
                       naturalSizes).
Proof.
  unfold Spec.bottoms. apply Forall_fmap, Forall_forall.
  intros [it pos] Hin. cbn.
  apply elem_of_zip_l in Hin as Hit. cbn in Hit.
  apply list_elem_of_lookup in Hin as [i Hi].
  apply lookup_zip_Some in Hi as [Hi1 Hi2]. cbn in Hi1, Hi2.
  rewrite positions_lookup, Hi1 in Hi2. injection Hi2 as <-.
  rewrite Forall_forall in Hitems. specialize (Hitems it Hit).
  destruct (position_y_ordinary i it Hitems) as [y ->].
  by destruct (renderedHeight_ordinary it Hitems) as (r & -> & _).
Qed.

Lemma rowEntries_ordinary :
  Forall (fun e => Number.nonneg e.2)
         (Spec.rowEntries JSON_stringify items (Number.of_nat c) maxW W
                          naturalSizes).
Proof.
  unfold Spec.rowEntries. apply Forall_forall. intros e Hin.
  apply list_elem_of_lookup in Hin as [i Hi].
  rewrite list_lookup_imap in Hi.
  destruct (items !! i) as [it|] eqn:Ei; [|done]. injection Hi as <-. cbn.
  rewrite Forall_forall in Hitems.
  destruct (renderedHeight_ordinary it) as (r & -> & Hr).
  - apply Hitems. by eapply list_elem_of_lookup_2.
  - by apply nonneg_Fin.
Qed.

(** On ordinary inputs the canvas height is that of the specification,
    in free mode and in grid mode. *)
Lemma canvasHeight_ordinary :
  items <> [] ->
  canvasHeight JSON_stringify items (Number.of_nat c) maxW W naturalSizes
  = if bool_decide (Exists (fun it => Spec.mode it = free) items)
    then Spec.freeHeight JSON_stringify items (Number.of_nat c) maxW W
                         naturalSizes
    else Spec.gridHeight JSON_stringify items (Number.of_nat c) maxW W
                         naturalSizes.
Proof.
  intros Hne. unfold canvasHeight.
  rewrite bool_decide_eq_false_2 by (by destruct items).
  destruct (anyFree _ _ _) eqn:E.
  - pose proof E as Hfree%anyFree_true.
    rewrite bool_decide_eq_true_2 by done.
    apply free_height_spec, bottoms_ordinary.
  - pose proof E as Hgrid%anyFree_false.
    rewrite bool_decide_eq_false_2.
    + apply grid_height_spec; [done|apply rowEntries_ordinary|done].
    + apply Forall_Exists_neg. eapply Forall_impl; [exact Hgrid|].
      by intros it ->.
Qed.

End Ordinary.

(** * Further properties of the component *)

(** ** Video items *)

Lemma str_app_nil (s : string) : "" +:+ s = s.
Proof. reflexivity. Qed.

Lemma str_app_cons (c : ascii) (r s : string) :
  String c r +:+ s = String c (r +:+ s).
Proof. reflexivity. Qed.

Lemma str_app_nil_r (s : string) : s +:+ "" = s.
Proof. induction s as [|c s IH]; [done|]. by rewrite str_app_cons, IH. Qed.

(** [.*] takes a text without line terminator off the input. *)
Lemma repeat_dot (k : string -> bool) (fuel : nat) (s : string) :
  (String.length s <= fuel)%nat ->
  RegExp.repeatMatcher (RegExp.m true RegExp.Dot) k fuel s = true <->
  exists q rest : string, s = q +:+ rest /\ single_line q /\ k rest = true.
Proof.
  revert s. induction fuel as [|fuel IH]; intros s Hlen.
  - destruct s as [|c s]; [|cbn in Hlen; lia]. cbn. split.
    + intros Hk. by exists "", "".
    + intros (q & rest & E & _ & Hk). destruct q; [|done].
      rewrite str_app_nil in E. by subst.
  - cbn [RegExp.repeatMatcher RegExp.m]. rewrite orb_true_iff. split.
    + intros [H|Hk].
      * destruct s as [|c s]; [done|].
        apply andb_true_iff in H as [Hc H].
        cbn [String.length] in H.
        rewrite (proj2 (Nat.ltb_lt _ _)) in H by lia.
        apply IH in H as (q & rest & -> & Hq & Hk); [|cbn in Hlen; lia].
        exists (String c q), rest. split_and!; [done| |done].
        split; [|done]. by apply negb_true_iff.
      * by exists "", s.
    + intros (q & rest & -> & Hq & Hk). destruct q as [|c q].
      * by right.
      * left. rewrite str_app_cons. destruct Hq as [Hc Hq].
        rewrite Hc. cbn [negb andb String.length].
        rewrite (proj2 (Nat.ltb_lt _ _)) by lia.
        apply IH; [rewrite str_app_cons in Hlen; cbn in Hlen; lia|].
        by exists q, rest.
Qed.

Lemma m_star_dot (k : string -> bool) (s : string) :
  RegExp.m true (RegExp.Star RegExp.Dot) k s = true <->
  exists q rest : string, s = q +:+ rest /\ single_line q /\ k rest = true.
Proof. cbn [RegExp.m]. by apply repeat_dot. Qed.

(** A literal text takes off the input a text equal to it up to the
    case of the letters. *)
Lemma m_chars (p : string) (k : string -> bool) (s : string) :
  RegExp.m true (RegExp.chars p) k s = true <->
  exists e rest : string,
    s = e +:+ rest /\ canonString e = canonString p /\ k rest = true.
Proof.
  revert s. induction p as [|c p IH]; intros s; cbn [RegExp.chars RegExp.m].
  - split.
    + intros Hk. by exists "", s.
    + intros (e & rest & -> & He & Hk). by destruct e.
  - destruct s as [|d s].
    + split; [done|]. intros (e & rest & E & He & _). by destruct e.
    + rewrite andb_true_iff, bool_decide_eq_true, IH. split.
      * intros (Hd & e & rest & -> & He & Hk).
        exists (String d e), rest. split_and!; [done| |done].
        cbn [canonString]. by rewrite Hd, He.
      * intros (e & rest & E & He & Hk). destruct e as [|d' e]; [done|].
        rewrite str_app_cons in E. injection E as -> ->.
        cbn [canonString] in He. injection He as Hd He.
        split; [done|]. by exists e, rest.
Qed.

Lemma m_seq (r1 r2 : RegExp.t) (k : string -> bool) (s : string) :
  RegExp.m true (RegExp.Seq r1 r2) k s
  = RegExp.m true r1 (RegExp.m true r2 k) s.
Proof. reflexivity. Qed.

Lemma m_end (s : string) :
  RegExp.m true RegExp.End (fun _ => true) s = true <-> s = "".
Proof. by destruct s. Qed.

Lemma test_spec (r : RegExp.t) (s : string) :
  RegExp.test true r s = true <->
  exists pre suf : string,
    s = pre +:+ suf /\ RegExp.m true r (fun _ => true) suf = true.
Proof.
  induction s as [|c s IH]; cbn [RegExp.test]; rewrite orb_true_iff.
  - split.
    + intros [H|?]; [|done]. by exists "", "".
    + intros (pre & suf & E & H). left. destruct pre; [|done].
      rewrite str_app_nil in E. by subst.
  - rewrite IH. split.
    + intros [H|(pre & suf & -> & H)].
      * by exists "", (String c s).
      * by exists (String c pre), suf.
    + intros (pre & suf & E & H). destruct pre as [|c' pre].
      * left. rewrite str_app_nil in E. by subst.
      * right. rewrite str_app_cons in E. injection E as -> ->.
        by exists pre, suf.
Qed.

(** Up to case, a character is a letter or the digit of an extension
    when its lower case is; it is [.], [?] or [#] when it is equal to
    it. *)
Lemma canon_eq_lower (c p : ascii) :
  p ∈ ["m"; "p"; "4"; "w"; "e"; "b"; "o"; "g"; "v"]%char ->
  RegExp.canonicalize true c = RegExp.canonicalize true p
  <-> JsString.toLowerChar c = p.
Proof.
  intros Hp. repeat (apply elem_of_cons in Hp as [->|Hp]);
    [..|by apply elem_of_nil in Hp];
    destruct c as [[] [] [] [] [] [] [] []]; vm_compute;
    (split; intros H; first [reflexivity|discriminate H]).
Qed.

Lemma canon_eq_punct (c p : ascii) :
  p ∈ ["."; "?"; "#"]%char ->
  RegExp.canonicalize true c = RegExp.canonicalize true p <-> c = p.
Proof.
  intros Hp. repeat (apply elem_of_cons in Hp as [->|Hp]);
    [..|by apply elem_of_nil in Hp];
    destruct c as [[] [] [] [] [] [] [] []]; vm_compute;
    (split; intros H; first [reflexivity|discriminate H]).
Qed.

Lemma canonString_lower (e p : string) :
  plain p -> canonString e = canonString p <-> JsString.toLowerCase e = p.
Proof.
  revert e. induction p as [|c p IH]; intros e Hp.
  - by destruct e.
  - destruct Hp as [Hc Hp]. destruct e as [|d e]; [done|].
    cbn [canonString JsString.toLowerCase]. split.
    + intros [= Hd He]. f_equal; [by apply canon_eq_lower|by apply IH].
    + intros [= Hd He]. f_equal; [by apply canon_eq_lower|by apply IH].
Qed.

Lemma m_punct (p : ascii) (k : string -> bool) (s : string) :
  p ∈ ["."; "?"; "#"]%char ->
  RegExp.m true (RegExp.Char p) k s = true <->
  exists s' : string, s = String p s' /\ k s' = true.
Proof.
  intros Hp. cbn [RegExp.m]. destruct s as [|d s].
  - split; [done|]. by intros (? & ? & ?).
  - rewrite andb_true_iff, bool_decide_eq_true, (canon_eq_punct d p Hp). split.
    + intros [-> Hk]. by exists s.
    + by intros (s' & [= -> ->] & Hk).
Qed.

Lemma m_extension (k : string -> bool) (s : string) :
  RegExp.m true
    (RegExp.Alt (RegExp.chars "mp4")
       (RegExp.Alt (RegExp.chars "webm")
          (RegExp.Alt (RegExp.chars "ogg")
             (RegExp.Alt (RegExp.chars "ogv")
                (RegExp.Alt (RegExp.chars "mov") (RegExp.chars "m4v"))))))
    k s = true <->
  exists ext rest : string,
    s = ext +:+ rest
    /\ JsString.toLowerCase ext ∈ ["mp4"; "webm"; "ogg"; "ogv"; "mov"; "m4v"]
    /\ k rest = true.
Proof.
  assert (forall p,
             p ∈ ["mp4"; "webm"; "ogg"; "ogv"; "mov"; "m4v"] -> plain p) as Hplain.
  { intros p Hp. repeat (apply elem_of_cons in Hp as [->|Hp]);
      [..|by apply elem_of_nil in Hp]; cbn; repeat split; compute_done. }
  repeat change (RegExp.m true (RegExp.Alt ?a ?b) k s)
    with (RegExp.m true a k s || RegExp.m true b k s).
  rewrite !orb_true_iff, !m_chars. split.
  - intros H.
    repeat destruct H as [H|H];
      destruct H as (e & rest & -> & He & Hk);
      apply canonString_lower in He; try (apply Hplain; compute_done);
      exists e, rest; (split_and!; [done|rewrite He; compute_done|done]).
  - intros (e & rest & -> & He & Hk).
    repeat (apply elem_of_cons in He as [He|He]);
      [..|by apply elem_of_nil in He];
      apply canonString_lower in He; try (apply Hplain; compute_done);
      eauto 10.
Qed.

Lemma m_query (s : string) :
  RegExp.m true
    (RegExp.Seq
       (RegExp.Opt
          (RegExp.Alt
             (RegExp.Seq (RegExp.Char "?") (RegExp.Star RegExp.Dot))
             (RegExp.Seq (RegExp.Char "#") (RegExp.Star RegExp.Dot))))
       RegExp.End)
    (fun _ => true) s = true <->
  s = ""
  \/ exists q : string,
       (s = String "?" q \/ s = String "#" q) /\ single_line q.
Proof.
  change (?x = true <-> ?P) with
    (RegExp.m true (RegExp.Char "?")
       (RegExp.m true (RegExp.Star RegExp.Dot)
          (RegExp.m true RegExp.End (fun _ => true))) s
     || RegExp.m true (RegExp.Char "#")
          (RegExp.m true (RegExp.Star RegExp.Dot)
             (RegExp.m true RegExp.End (fun _ => true))) s
     || RegExp.m true RegExp.End (fun _ => true) s = true <-> P).
  rewrite !orb_true_iff, !m_punct, m_end by compute_done.
  assert (forall r : string,
             RegExp.m true (RegExp.Star RegExp.Dot)
               (RegExp.m true RegExp.End (fun _ => true)) r = true
             <-> single_line r) as Hstar.
  { intros r. rewrite m_star_dot. split.
    - intros (q & rest & -> & Hq & ->%m_end). by rewrite str_app_nil_r.
    - intros Hr. exists r, "". by rewrite str_app_nil_r. }
  split.
  - intros [[(q & -> & Hq)|(q & -> & Hq)]| ->].
    + right. exists q. split; [by left|]. by apply Hstar.
    + right. exists q. split; [by right|]. by apply Hstar.
    + by left.
  - intros [->|(q & [->| ->] & Hq)].
    + by right.
    + left; left. exists q. split; [done|]. by apply Hstar.
    + left; right. exists q. split; [done|]. by apply Hstar.
Qed.

Lemma videoUrl_test (url : string) :
  RegExp.test true videoUrl url = true <->
  exists pre ext tail : string,
    url = pre +:+ "." +:+ ext +:+ tail
    /\ JsString.toLowerCase ext ∈ ["mp4"; "webm"; "ogg"; "ogv"; "mov"; "m4v"]
    /\ (tail = ""
        \/ exists q : string,
             (tail = String "?" q \/ tail = String "#" q) /\ single_line q).
Proof.
  rewrite test_spec. unfold videoUrl. split.
  - intros (pre & suf & -> & H). rewrite m_seq in H.
    apply m_punct in H as (s1 & -> & H); [|compute_done].
    rewrite m_seq in H.
    apply m_extension in H as (ext & tail & -> & Hext & H).
    apply m_query in H. exists pre, ext, tail.
    split_and!; [reflexivity|done|done].
  - intros (pre & ext & tail & -> & Hext & Htail).
    exists pre, ("." +:+ ext +:+ tail). split; [done|].
    change ("." +:+ ext +:+ tail) with (String "." (ext +:+ tail)).
    rewrite m_seq. apply m_punct; [compute_done|].
    exists (ext +:+ tail). split; [done|]. rewrite m_seq.
    apply m_extension. exists ext, tail. split_and!; [done|done|].
    by apply m_query.
Qed.

(** X1. An item is taken for a video exactly when its declared type is
    [video], or its url is some text, a dot, one of the extensions
    [mp4], [webm], [ogg], [ogv], [mov], [m4v] in any letter case, and
    then nothing, or a [?] or a [#] followed by a text without line
    terminator.  So a declared type [image] does not keep an item with
    such a url from being a video, and an extension followed by anything
    else (a further path segment, a line break in the query) does not
    count. *)
Theorem isVideoItem_spec :
  forall item : Item,
    isVideoItem item = true <->
    Item.type item = Some video
    \/ exists pre ext tail : string,
         Item.url item = pre +:+ "." +:+ ext +:+ tail
         /\ JsString.toLowerCase ext
            ∈ ["mp4"; "webm"; "ogg"; "ogv"; "mov"; "m4v"]
         /\ (tail = ""
             \/ exists q : string,
                  (tail = String "?" q \/ tail = String "#" q)
                  /\ single_line q).
Proof.
  intros item. rewrite <- videoUrl_test. unfold isVideoItem.
  destruct (Item.type item) as [[]|]; cbn.
  - split; [by right|]. by intros [?|?].
  - split; [by left|done].
  - split; [by right|]. by intros [?|?].
Qed.

(** ** The registry of natural sizes *)

(** X2. After any sequence of reports the registry holds, under a key,
    the size of the last report made under that key, and what it held
    before when no report was made under it: a report overwrites the
    entry of its key and leaves every other entry as it was, and no
    entry is ever removed. *)
Theorem registry_keeps_last_report :
  forall (JSON_stringify : Item -> string) (reports : list (Item * Dim))
         (prev : gmap string Dim) (k : string),
    reportAll JSON_stringify reports prev !! k
    = match last (filter (fun r => keyOf JSON_stringify r.1 = k) reports) with
      | Some r => Some r.2
      | None => prev !! k
      end.
Proof.
  intros JSON_stringify reports prev k. unfold reportAll.
  induction reports as [|[it d] reports IH] using rev_ind; [done|].
  rewrite fold_left_app, filter_app, last_app. cbn [fold_left fst snd].
  unfold handleNaturalSize at 1. rewrite lookup_insert.
  destruct (decide (keyOf JSON_stringify it = k)) as [Hk|Hk].
  - by rewrite filter_cons_True by done.
  - rewrite filter_cons_False by done. by rewrite filter_nil.
Qed.

(** ** The node and the controller *)

Ltac qc_nra := qc_unfold; nra.


Lemma Qc_mul_div_cancel (b m : Qc) : b <> 0%Qc -> (b * (m / b) = m)%Qc.
Proof. intros Hb. field. done. Qed.

(** A number checked to be finite and not negative. *)
Lemma finiteNonneg_check (a : number) :
  match a with Fin q => bool_decide (0 <= q)%Qc | _ => false end = true ->
  Spec.finiteNonneg a.
Proof.
  destruct a as [| | |q]; try done. intros Hq%bool_decide_eq_true_1.
  by exists q.
Qed.

(** X3. The height that the controller plans for an item is the height
    that its node draws: once a node has reported a natural size whose
    width and height are not zero (nor [NaN]), [getRenderedHeight] on
    the entry that [handleNaturalSize] has stored for the item is the
    [renderedH] of the node, which is given the global scale as
    [scale]. *)
Theorem node_height_agrees_with_gallery :
  forall (JSON_stringify : Item -> string) (item : Item) (dim : Dim)
         (prev : gmap string Dim) (maxW size_w : number),
    Number.truthy (Dim.w dim) = true ->
    Number.truthy (Dim.h dim) = true ->
    DraggableMedia.renderedH item (globalScale size_w) maxW
      (DraggableMedia.baseW (Some dim)) (DraggableMedia.baseH (Some dim))
    = getRenderedHeight maxW size_w item
        (handleNaturalSize JSON_stringify item dim prev
         !! keyOf JSON_stringify item).
Proof.
  intros JSON_stringify item dim prev maxW size_w Hw Hh.
  unfold handleNaturalSize. rewrite lookup_insert_eq.
  rewrite getRenderedHeight_known. unfold DraggableMedia.renderedH.
  rewrite internalScale_cases. cbn [DraggableMedia.baseW DraggableMedia.baseH].
  by rewrite Hw, Hh.
Qed.

Lemma node_height_agrees_with_gallery_witness :
  Number.truthy (Dim.w (Dim.mk 640 360)) = true
  /\ Number.truthy (Dim.h (Dim.mk 640 360)) = true
  /\ DraggableMedia.renderedH Sample.silent (globalScale 2560) 480 640 360
     = Number.lit 675 4
  /\ getRenderedHeight 480 2560 Sample.silent
       (handleNaturalSize Sample.stringify Sample.silent (Dim.mk 640 360) ∅
        !! keyOf Sample.stringify Sample.silent)
     = Number.lit 675 4.
Proof.
  split_and!; [reflexivity|reflexivity|compute_done|].
  rewrite <- (node_height_agrees_with_gallery Sample.stringify Sample.silent
                (Dim.mk 640 360) ∅ 480 2560 eq_refl eq_refl).
  compute_done.
Defined.










(** X8. The label of a hovered node is never placed at [NaN]: its [y]
    is the rendered height plus 6 when the rendered height is a number,
    and 6 when it is [NaN] or when nothing has been loaded yet. *)
Theorem label_y_never_nan :
  (forall renderedH : number, DraggableMedia.labelY renderedH <> NaN)
  /\ (forall renderedH : number,
         renderedH <> NaN ->
         DraggableMedia.labelY renderedH = (renderedH + 6)%js)
  /\ DraggableMedia.labelY NaN = 6
  /\ (forall (item : Item) (scale maxW : number),
         DraggableMedia.labelY
           (DraggableMedia.renderedH item scale maxW
              (DraggableMedia.baseW None) (DraggableMedia.baseH None))
         = 6).
Proof.
  split_and!.
  - intros r. unfold DraggableMedia.labelY, Number.or.
    destruct (Number.truthy r) eqn:E; [by destruct r|done].
  - intros r Hr. unfold DraggableMedia.labelY. by rewrite or_0_not_nan.
  - compute_done.
  - intros. unfold DraggableMedia.renderedH, DraggableMedia.internalScale.
    cbn [DraggableMedia.baseW DraggableMedia.baseH].
    change (Number.truthy 0) with false. cbn [negb orb]. compute_done.
Qed.

(** ** Planned positions *)

(** X9. The render pass reads no position out of range: [positions]
    has one entry per item, and the controller produces one node per
    item, in the order of the items, each with its own item, the global
    scale, [maxW] and the planned coordinates of the same index; beyond
    the items there is neither a position nor a node. *)
Theorem one_node_per_item :
  forall (items : list Item) (cols maxW size_w : number),
    length (positions items cols size_w) = length items
    /\ length (mediaNodes items cols maxW size_w) = length items
    /\ (forall (i : nat) (item : Item),
           items !! i = Some item ->
           exists p : Pos,
             positions items cols size_w !! i = Some p
             /\ mediaNodes items cols maxW size_w !! i
                = Some (DraggableMedia.mkProps (mediaKey item i) item
                          (Pos.x p) (Pos.y p) (globalScale size_w) maxW))
    /\ (forall i : nat,
           (length items <= i)%nat ->
           positions items cols size_w !! i = None
           /\ mediaNodes items cols maxW size_w !! i = None).
Proof.
  intros items cols maxW size_w. split_and!.
  - apply positions_length.
  - apply length_imap.
  - intros i item Hi. exists (position cols size_w i item). split.
    + by rewrite positions_lookup, Hi.
    + by apply mediaNodes_lookup.
  - intros i Hi. split; apply lookup_ge_None.
    + by rewrite positions_length.
    + unfold mediaNodes. by rewrite length_imap.
Qed.

Lemma Qc_of_Z_le (a b : Z) : a <= b -> (Qc_of_Z a <= Qc_of_Z b)%Qc.
Proof. apply Z2Qc_inj_le. Qed.

Lemma Qc_of_Z_lt (a b : Z) : a < b -> (Qc_of_Z a < Qc_of_Z b)%Qc.
Proof. apply Z2Qc_inj_lt. Qed.

Lemma Qc_of_nat_succ_le (a b : nat) :
  (a + 1 <= b)%nat ->
  (Qc_of_Z (Z.of_nat a) + 1 <= Qc_of_Z (Z.of_nat b))%Qc.
Proof.
  intros Hab. rewrite <- Z2Qc_inj_1, <- Z2Qc_inj_add. apply Qc_of_Z_le. lia.
Qed.

(** The integer part grows by steps of at least one. *)
Lemma Qc_floor_step (a b : Qc) : (a + 1 <= b)%Qc -> Qfloor a < Qfloor b.
Proof.
  intros Hab. rewrite Zlt_Qlt.
  pose proof (Qfloor_le a) as Ha. pose proof (Qlt_floor b) as Hb.
  rewrite inject_Z_plus in Hb. qc_lra.
Qed.

Lemma Qc_floor_le (a : Qc) : (Qc_of_Z (Qfloor a) <= a)%Qc.
Proof. pose proof (Qfloor_le a). qc_lra. Qed.

Lemma ltb_of_Z (a b : Z) :
  (Number.of_Z a <? Number.of_Z b)%js = bool_decide (a < b).
Proof.
  unfold Number.of_Z. rewrite ltb_Fin.
  apply bool_decide_ext. symmetry. apply Z2Qc_inj_lt.
Qed.

(** The grid position in closed form, for a whole number of columns and
    a whole width. *)
Lemma grid_coordinates (c : nat) (W : Z) (i : nat) (it : Item) :
  (0 < c)%nat ->
  Spec.mode it = grid ->
  exists g cw : Qc,
    globalScale W = Fin g
    /\ (Q2Qc (35 # 100) <= g)%Qc /\ (g <= Q2Qc (11 # 10))%Qc
    /\ colW (Number.of_nat c) W = Fin cw
    /\ cw = (if bool_decide
                  (Qc_of_Z 240 * g
                   < Qc_of_Z W / Qc_of_Z (Z.of_nat c) + - (Qc_of_Z 40 * g))%Qc
             then Qc_of_Z W / Qc_of_Z (Z.of_nat c) + - (Qc_of_Z 40 * g)
             else Qc_of_Z 240 * g)%Qc
    /\ position (Number.of_nat c) W i it =
       GridPos
         (Number.of_Z
            (Qfloor (Qc_of_Z 20 * g
                     + Qc_of_Z (Z.of_nat (i mod c)) * (cw + Qc_of_Z 40 * g)
                     + Q2Qc (1 # 2))%Qc))
         (Number.of_Z
            (Qfloor (Qc_of_Z 20 * g
                     + Qc_of_Z (Z.of_nat (i / c)) * (Qc_of_Z 40 * g)
                     + Q2Qc (1 # 2))%Qc))
         (Number.of_nat (i / c)).
Proof.
  intros Hc [Hx Hy]%mode_grid_undeclared.
  destruct (globalScale_range W) as (g & Hg & Hlo & Hhi).
  exists g. eexists. split_and!; [done|done|done| | |].
  - unfold colW, gapX. rewrite Hg. unfold Number.of_nat, Number.of_Z.
    rewrite div_Fin by (apply Qc_of_Z_nonzero; lia).
    cbn [Number.mul Number.sub Number.neg Number.add].
    rewrite max_Fin. reflexivity.
  - reflexivity.
  - rewrite position_grid by done. unfold Spec.gridPosition.
    rewrite rem_nat, floor_div_nat by done.
    rewrite Hg. unfold Number.of_nat, Number.of_Z.
    rewrite div_Fin by (apply Qc_of_Z_nonzero; lia).
    cbn [Number.mul Number.sub Number.neg Number.add].
    rewrite max_Fin. reflexivity.
Qed.

(** X10. Grid items are laid out in reading order and no two of them
    at the same point: with a whole number [c > 0] of columns and a
    whole width, of two grid items the one of larger index is, when in
    the same row, at the same [y] and at a strictly larger [x], and
    otherwise at a strictly larger [y]. *)
Theorem grid_positions_row_major :
  forall (c : nat) (W : Z) (i j : nat) (it it' : Item),
    (0 < c)%nat ->
    Spec.mode it = grid ->
    Spec.mode it' = grid ->
    (i < j)%nat ->
    let p := position (Number.of_nat c) W i it in
    let q := position (Number.of_nat c) W j it' in
    if decide (i / c = j / c)%nat
    then Pos.y p = Pos.y q /\ (Pos.x p <? Pos.x q)%js = true
    else (Pos.y p <? Pos.y q)%js = true.
Proof.
  intros c W i j it it' Hc Hit Hit' Hij.
  destruct (grid_coordinates c W i it Hc Hit)
    as (g & cw & Hg & Hlo & Hhi & _ & Hcw & ->).
  destruct (grid_coordinates c W j it' Hc Hit')
    as (g' & cw' & Hg' & _ & _ & _ & Hcw' & ->).
  rewrite Hg in Hg'. injection Hg' as <-. rewrite <- Hcw in Hcw'. subst cw'.
  assert (Qc_of_Z 240 * g <= cw)%Qc as Hcol.
  { rewrite Hcw. case_bool_decide; [by apply Qclt_le_weak|apply Qcle_refl]. }
  clear Hcw. cbn [Pos.x Pos.y].
  destruct (decide (i / c = j / c)%nat) as [Erow|Nrow].
  - rewrite Erow. split; [done|].
    rewrite ltb_of_Z. apply bool_decide_eq_true_2, Qc_floor_step.
    assert (i mod c + 1 <= j mod c)%nat as Hcol'.
    { pose proof (Nat.div_mod_eq i c) as Hi.
      pose proof (Nat.div_mod_eq j c) as Hj.
      rewrite Erow in Hi. revert Hi Hj.
      generalize (c * (j / c))%nat, (i mod c)%nat, (j mod c)%nat. lia. }
    apply Qc_of_nat_succ_le in Hcol'. revert Hcol'.
    generalize (Qc_of_Z (Z.of_nat (i mod c))).
    generalize (Qc_of_Z (Z.of_nat (j mod c))). intros b a Hq.
    qc_nra.
  - rewrite ltb_of_Z. apply bool_decide_eq_true_2, Qc_floor_step.
    assert (i / c + 1 <= j / c)%nat as Hrow.
    { assert (i / c <= j / c)%nat by (apply Nat.Div0.div_le_mono; lia). lia. }
    apply Qc_of_nat_succ_le in Hrow. revert Hrow.
    generalize (Qc_of_Z (Z.of_nat (i / c))).
    generalize (Qc_of_Z (Z.of_nat (j / c))). intros b a Hq.
    qc_nra.
Qed.

Lemma grid_positions_row_major_witness :
  (0 < 3)%nat
  /\ Spec.mode Sample.tall = grid
  /\ Spec.mode Sample.small = grid
  /\ (1 < 2)%nat
  /\ position 3 2560 1 Sample.tall = GridPos 873 20 0
  /\ position 3 2560 2 Sample.small = GridPos 1727 20 0
  /\ (Pos.x (position 3 2560 1 Sample.tall)
      <? Pos.x (position 3 2560 2 Sample.small))%js = true.
Proof.
  assert (0 < 3)%nat as Hc by lia.
  assert (1 < 2)%nat as Hij by lia.
  split_and!; [exact Hc|reflexivity|reflexivity|exact Hij
              |compute_done|compute_done|].
  apply (grid_positions_row_major 3 2560 1 2 Sample.tall Sample.small
           Hc eq_refl eq_refl Hij).
Defined.

(** X11. When the container is wide enough for its columns, that is
    when [W / cols - gapX] is not below the least column width
    [240 * globalScale], the grid stays inside it: for every grid item
    the planned [x] plus the column width is at most the width [W]. *)
Theorem grid_columns_fit_container :
  forall (c : nat) (W : Z) (i : nat) (it : Item),
    (0 < c)%nat ->
    Spec.mode it = grid ->
    (240 * globalScale W <=? W / Number.of_nat c - gapX W)%js = true ->
    (Pos.x (position (Number.of_nat c) W i it) + colW (Number.of_nat c) W
     <=? W)%js = true.
Proof.
  intros c W i it Hc Hit Hwide.
  destruct (grid_coordinates c W i it Hc Hit)
    as (g & cw & Hg & Hlo & Hhi & HcolW & Hcw & ->).
  rewrite HcolW. cbn [Pos.x].
  unfold gapX in Hwide. rewrite Hg in Hwide.
  unfold Number.of_nat, Number.of_Z in Hwide |- *.
  rewrite div_Fin in Hwide by (apply Qc_of_Z_nonzero; lia).
  cbn [Number.mul Number.sub Number.neg Number.add] in Hwide |- *.
  rewrite leb_Fin in Hwide. apply bool_decide_eq_true_1 in Hwide.
  rewrite leb_Fin. apply bool_decide_eq_true_2.
  assert (cw = Qc_of_Z W / Qc_of_Z (Z.of_nat c) + - (Qc_of_Z 40 * g))%Qc as ->.
  { rewrite Hcw. case_bool_decide as Hlt; [done|].
    apply Qcle_antisym; [done|]. by apply Qcnot_lt_le. }
  clear Hcw HcolW.
  assert (forall a b : Qc, a + - b + b = a)%Qc as Hcancel by (intros; ring).
  rewrite Hcancel. clear Hcancel.
  assert (Z.of_nat (i mod c) + 1 <= Z.of_nat c) as Hk
    by (pose proof (Nat.mod_upper_bound i c); lia).
  apply Qc_of_Z_le in Hk. rewrite Z2Qc_inj_add, Z2Qc_inj_1 in Hk.
  pose proof (Qc_of_Z_nonneg (Z.of_nat (i mod c)) ltac:(lia)) as Hk0.
  assert (Qc_of_Z (Z.of_nat c) * (Qc_of_Z W / Qc_of_Z (Z.of_nat c)) = Qc_of_Z W)%Qc
    as Hdiv by (apply Qc_mul_div_cancel, Qc_of_Z_nonzero; lia).
  pose proof (Qc_floor_le
                (Qc_of_Z 20 * g
                 + Qc_of_Z (Z.of_nat (i mod c))
                   * (Qc_of_Z W / Qc_of_Z (Z.of_nat c))
                 + Q2Qc (1 # 2))%Qc) as Hfl.
  revert Hfl Hdiv Hk Hk0 Hwide.
  generalize (Qfloor
                (Qc_of_Z 20 * g
                 + Qc_of_Z (Z.of_nat (i mod c))
                   * (Qc_of_Z W / Qc_of_Z (Z.of_nat c))
                 + Q2Qc (1 # 2))%Qc).
  generalize (Qc_of_Z W / Qc_of_Z (Z.of_nat c))%Qc.
  generalize (Qc_of_Z (Z.of_nat (i mod c))), (Qc_of_Z (Z.of_nat c)), (Qc_of_Z W).
  intros k n w d z Hfl Hdiv Hk Hk0 Hwide.
  revert Hfl. generalize (Qc_of_Z z). intros x Hfl.
  qc_nra.
Qed.

Lemma grid_columns_fit_container_witness :
  (0 < 3)%nat
  /\ Spec.mode Sample.small = grid
  /\ (240 * globalScale 2560 <=? 2560 / Number.of_nat 3 - gapX 2560)%js = true
  /\ (Pos.x (position 3 2560 2 Sample.small) + colW 3 2560)%js
     = Number.lit 7621 3
  /\ (Pos.x (position 3 2560 2 Sample.small) + colW 3 2560 <=? 2560)%js = true.
Proof.
  assert (0 < 3)%nat as Hc by lia.
  assert ((240 * globalScale 2560 <=? 2560 / Number.of_nat 3 - gapX 2560)%js
          = true) as Hwide by reflexivity.
  split_and!; [exact Hc|reflexivity|exact Hwide|compute_done|].
  apply (grid_columns_fit_container 3 2560 2 Sample.small Hc eq_refl Hwide).
Defined.

Lemma mul_NaN_l (a : number) : (NaN * a)%js = NaN.
Proof. by destruct a. Qed.

Lemma add_NaN_r (a : number) : (a + NaN)%js = NaN.
Proof. by destruct a. Qed.

Lemma rem_zero (i : nat) : Number.rem (Number.of_nat i) 0 = NaN.
Proof.
  unfold Number.rem, Number.of_nat, Number.of_Z.
  rewrite Z2Qc_inj_0. by rewrite decide_True.
Qed.

(** X12. The column count is not validated: with [cols = 0] no grid
    item gets a usable position, its [x] being [NaN] at every index and
    width, and its [y] being [NaN] at index 0 and [+Infinity] at the
    later indices. *)
Theorem zero_columns_give_no_position :
  forall (size_w : number) (i : nat) (it : Item),
    Spec.mode it = grid ->
    Pos.x (position 0 size_w i it) = NaN
    /\ (forall W : Z,
           Pos.y (position 0 W i it)
           = if decide (i = 0%nat) then NaN else PosInf).
Proof.
  intros size_w i it [Hx Hy]%mode_grid_undeclared. split.
  - rewrite position_grid by done. unfold Spec.gridPosition. cbn [Pos.x].
    by rewrite rem_zero, mul_NaN_l, add_NaN_r.
  - intros W. rewrite position_grid by done.
    unfold Spec.gridPosition. cbn [Pos.y].
    destruct (globalScale_range W) as (g & -> & Hlo & _).
    assert (0 < Qc_of_Z 40 * g)%Qc as Hgap by qc_nra.
    destruct (decide (i = 0%nat)) as [->|Hi].
    + reflexivity.
    + assert ((Number.of_nat i / 0)%js = PosInf) as ->.
      { unfold Number.of_nat, Number.of_Z, Number.div.
        rewrite Z2Qc_inj_0, decide_True by done. cbn [Number.sign].
        assert (0 < Qc_of_Z (Z.of_nat i))%Qc as Hpos%Qcgt_alt.
        { rewrite <- Z2Qc_inj_0. apply Qc_of_Z_lt. lia. }
        by rewrite Hpos. }
      cbn [Math.floor Number.mul Number.sign Number.of_Z].
      apply Qcgt_alt in Hgap. cbn [Number.sign_mul]. rewrite Hgap.
      reflexivity.
Qed.

Lemma zero_columns_give_no_position_witness :
  Spec.mode Sample.small = grid
  /\ Pos.x (position 0 2560 1 Sample.small) = NaN
  /\ Pos.y (position 0 2560 1 Sample.small) = PosInf.
Proof.
  destruct (zero_columns_give_no_position 2560 1 Sample.small eq_refl)
    as [Hx Hy].
  split_and!; [reflexivity|exact Hx|exact (Hy 2560)].
Defined.

(** ** The canvas height, further *)

Lemma leb_refl (a : number) : a <> NaN -> (a <=? a)%js = true.
Proof. intros Ha. number_cases; qc_lra. Qed.

Lemma leb_trans (a b c : number) :
  (a <=? b)%js = true -> (b <=? c)%js = true -> (a <=? c)%js = true.
Proof. intros Hab Hbc. number_cases; qc_lra. Qed.

Lemma leb_add_r (a b : number) (p : Qc) :
  (a <=? b)%js = true -> (a + Fin p <=? b + Fin p)%js = true.
Proof. intros Hab. number_cases; qc_lra. Qed.

Lemma leb_ceil (a : number) : a <> NaN -> (a <=? Math.ceil a)%js = true.
Proof.
  intros Ha. destruct a as [| | |q]; try done.
  cbn [Math.ceil]. unfold Number.of_Z. rewrite leb_Fin.
  apply bool_decide_eq_true_2. pose proof (Qle_ceiling q). qc_lra.
Qed.

Lemma leb_max_r (a b : number) :
  a <> NaN -> b <> NaN -> (b <=? Math.max a b)%js = true.
Proof. intros Ha Hb. number_cases; qc_lra. Qed.

Lemma finiteNonneg_nonneg (a : number) : Spec.finiteNonneg a -> Number.nonneg a.
Proof. intros (q & -> & Hq). by apply nonneg_Fin. Qed.

(** [Math.max(500, Math.ceil(v))] of a number [v >= 0] is a whole number
    that is at least 500, or [+Infinity]. *)
Lemma max_500_ceil (v : number) :
  Number.nonneg v ->
  Math.max 500 (Math.ceil v) = PosInf
  \/ exists z : Z, 500 <= z /\ Math.max 500 (Math.ceil v) = Number.of_Z z.
Proof.
  intros [->|(q & -> & Hq)]%nonneg_cases; [by left|right].
  cbn [Math.ceil]. unfold Number.of_Z. rewrite max_Fin.
  case_bool_decide as H.
  - exists (Qceiling q). split; [|done].
    apply Z2Qc_inj_lt in H. lia.
  - by exists 500.
Qed.

Section HeightArgument.

Variable JSON_stringify : Item -> string.
Variable items : list Item.
Variable cols : number.
Variable maxW : number.
Variable W : Z.
Variable naturalSizes : gmap string Dim.

Lemma free_total_nonneg :
  Number.nonneg
    (maxBottom JSON_stringify items cols maxW W naturalSizes + padding W)%js.
Proof.
  apply nonneg_add; [|apply padding_nonneg].
  by apply fold_freeStep_nonneg.
Qed.

Lemma grid_total_nonneg :
  Number.nonneg
    (padding W
     + sumHeights JSON_stringify items cols maxW W naturalSizes
     + totalGaps JSON_stringify items cols maxW W naturalSizes
     + labelPadPerRow JSON_stringify items cols maxW W naturalSizes
     + padding W)%js.
Proof.
  repeat apply nonneg_add;
    auto using padding_nonneg, totalGaps_nonneg, labelPadPerRow_nonneg.
  apply fold_sum_nonneg; [|by apply nonneg_Fin, Qc_of_Z_nonneg].
  apply fold_gridStep_nonneg. constructor.
Qed.

Lemma canvasHeight_whole :
  canvasHeight JSON_stringify items cols maxW W naturalSizes = PosInf
  \/ exists z : Z,
       500 <= z
       /\ canvasHeight JSON_stringify items cols maxW W naturalSizes
          = Number.of_Z z.
Proof.
  unfold canvasHeight.
  case_bool_decide; [right; by exists 500|].
  destruct (anyFree _ _ _).
  - apply max_500_ceil, free_total_nonneg.
  - apply max_500_ceil, grid_total_nonneg.
Qed.

End HeightArgument.

(** X13. The height given to the [Stage] is a whole number of pixels:
    for every item list, whole container width and registry, the canvas
    height is a whole number that is at least 500, or [+Infinity]; it
    is never [NaN], negative or fractional. *)
Theorem canvas_height_is_whole :
  forall (JSON_stringify : Item -> string) (items : list Item)
         (cols maxW : number) (W : Z) (naturalSizes : gmap string Dim),
    canvasHeight JSON_stringify items cols maxW W naturalSizes = PosInf
    \/ exists z : Z,
         500 <= z
         /\ canvasHeight JSON_stringify items cols maxW W naturalSizes
            = Number.of_Z z.
Proof. intros. apply canvasHeight_whole. Qed.

(** The running maximum of a loop that keeps the larger of two numbers
    is a number, never below where it started nor below a value met
    that is a number. *)
Lemma keep_larger (m b : number) :
  m <> NaN ->
  let r := if (b >? m)%js then b else m in
  r <> NaN /\ (m <=? r)%js = true /\ (b <> NaN -> (b <=? r)%js = true).
Proof.
  intros Hm. cbn zeta. number_cases; split_and!; try done; intros; qc_lra.
Qed.

Lemma fold_keep_larger {A : Type} (f : A -> number) (l : list A) (m : number) :
  m <> NaN ->
  let r := fold_left (fun m x => if (f x >? m)%js then f x else m) l m in
  r <> NaN
  /\ (m <=? r)%js = true
  /\ (forall x, x ∈ l -> f x <> NaN -> (f x <=? r)%js = true).
Proof.
  revert m. induction l as [|x l IH]; intros m Hm; cbn zeta.
  - split_and!; [done|by apply leb_refl|]. by intros x ?%elem_of_nil.
  - cbn [fold_left].
    destruct (keep_larger m (f x) Hm) as (Hr & Hmr & Hbr).
    destruct (IH _ Hr) as (Hr' & Hle & Hall).
    split_and!; [done|by eapply leb_trans|].
    intros y [->|Hin]%elem_of_cons Hb.
    + eapply leb_trans; [by apply Hbr|done].
    + by apply Hall.
Qed.

Lemma maxBottom_bound (JSON_stringify : Item -> string) (items : list Item)
  (cols maxW size_w : number) (naturalSizes : gmap string Dim) :
  maxBottom JSON_stringify items cols maxW size_w naturalSizes <> NaN
  /\ forall ip : Item * Pos,
       ip ∈ zip items (positions items cols size_w) ->
       ((Pos.y ip.2 || 0)
        + getRenderedHeight maxW size_w ip.1
            (naturalSizes !! keyOf JSON_stringify ip.1)
        + 24)%js <> NaN ->
       ((Pos.y ip.2 || 0)
        + getRenderedHeight maxW size_w ip.1
            (naturalSizes !! keyOf JSON_stringify ip.1)
        + 24
        <=? maxBottom JSON_stringify items cols maxW size_w naturalSizes)%js
       = true.
Proof.
  destruct (fold_keep_larger
              (fun ip : Item * Pos =>
                 ((Pos.y ip.2 || 0)
                  + getRenderedHeight maxW size_w ip.1
                      (naturalSizes !! keyOf JSON_stringify ip.1)
                  + 24)%js)
              (zip items (positions items cols size_w)) 0 ltac:(done))
    as (Hr & _ & Hall).
  split; [exact Hr|exact Hall].
Qed.

(** X14. In free mode nothing is cut off at the bottom: when some item
    is in free mode, for every item of the list whose bottom
    [(y || 0) + renderedHeight + 24] is a number, the canvas height is
    at least that bottom plus the padding, and this for every registry,
    width and column count. *)
Theorem free_canvas_contains_every_item :
  forall (JSON_stringify : Item -> string) (items : list Item)
         (cols maxW : number) (W : Z) (naturalSizes : gmap string Dim)
         (i : nat) (it : Item),
    Exists (fun it => Spec.mode it = free) items ->
    items !! i = Some it ->
    let bottom :=
      ((Pos.y (position cols W i it) || 0)
       + getRenderedHeight maxW W it (naturalSizes !! keyOf JSON_stringify it)
       + 24)%js in
    bottom <> NaN ->
    (bottom + padding W
     <=? canvasHeight JSON_stringify items cols maxW W naturalSizes)%js = true.
Proof.
  intros JSON_stringify items cols maxW W naturalSizes i it Hfree Hi bottom Hb.
  unfold canvasHeight.
  rewrite bool_decide_eq_false_2
    by (destruct items; [by apply Exists_nil in Hfree|done]).
  apply (anyFree_true items cols W) in Hfree. rewrite Hfree.
  unfold freeHeight.
  destruct (maxBottom_bound JSON_stringify items cols maxW W naturalSizes)
    as [HM Hall].
  specialize (Hall (it, position cols W i it)).
  assert ((it, position cols W i it) ∈ zip items (positions items cols W))
    as Hin.
  { apply list_elem_of_lookup. exists i. apply lookup_zip_Some.
    split; [done|]. by rewrite positions_lookup, Hi. }
  specialize (Hall Hin Hb). cbn [fst snd] in Hall. fold bottom in Hall.
  destruct (padding_Fin W) as (p & Hp & _). rewrite Hp.
  eapply leb_trans; [by apply leb_add_r|].
  revert HM.
  generalize (maxBottom JSON_stringify items cols maxW W naturalSizes).
  intros M HM.
  assert ((M + Fin p)%js <> NaN) as Hs by (destruct M; [by destruct HM|done..]).
  eapply leb_trans; [by apply leb_ceil|].
  apply leb_max_r; [done|]. revert Hs. by destruct (M + Fin p)%js.
Qed.

Lemma free_canvas_contains_every_item_witness :
  Exists (fun it => Spec.mode it = free) [Sample.photo; Sample.clip; Sample.small]
  /\ [Sample.photo; Sample.clip; Sample.small] !! 0%nat = Some Sample.photo
  /\ ((Pos.y (position 3 2560 0 Sample.photo) || 0)
      + getRenderedHeight 480 2560 Sample.photo
          (Sample.loaded !! keyOf Sample.stringify Sample.photo)
      + 24)%js = 984
  /\ canvasHeight Sample.stringify [Sample.photo; Sample.clip; Sample.small]
       3 480 2560 Sample.loaded = 1004
  /\ (((Pos.y (position 3 2560 0 Sample.photo) || 0)
       + getRenderedHeight 480 2560 Sample.photo
           (Sample.loaded !! keyOf Sample.stringify Sample.photo)
       + 24) + padding 2560
      <=? canvasHeight Sample.stringify
            [Sample.photo; Sample.clip; Sample.small] 3 480 2560 Sample.loaded)%js
     = true.
Proof.
  assert (Exists (fun it => Spec.mode it = free)
                 [Sample.photo; Sample.clip; Sample.small]) as Hfree
    by (left; reflexivity).
  split_and!; [exact Hfree|reflexivity|compute_done|compute_done|].
  apply (free_canvas_contains_every_item Sample.stringify
           [Sample.photo; Sample.clip; Sample.small] 3 480 2560 Sample.loaded
           0%nat Sample.photo Hfree eq_refl).
  discriminate.
Defined.

Lemma keep_larger_comm (a b m : number) :
  (if (a >? (if (b >? m)%js then b else m))%js then a
   else if (b >? m)%js then b else m)
  = (if (b >? (if (a >? m)%js then a else m))%js then b
     else if (a >? m)%js then a else m).
Proof. number_cases; f_equal; qc_lra. Qed.

Lemma zip_imap_fmap {A B : Type} (f : nat -> A -> B) (g : A -> B)
  (l : list A) :
  (forall i x, x ∈ l -> f i x = g x) ->
  zip l (imap f l) = (fun x => (x, g x)) <$> l.
Proof.
  revert f. induction l as [|x l IH]; intros f Hf; [done|].
  cbn. rewrite Hf by (apply elem_of_cons; by left). f_equal.
  apply IH. intros i y Hy. apply Hf, elem_of_cons. by right.
Qed.

Lemma fold_left_perm_comm {A B : Type} (f : B -> A -> B) (l k : list A) (b : B) :
  (forall x y c, f (f c x) y = f (f c y) x) ->
  l ≡ₚ k -> fold_left f l b = fold_left f k b.
Proof.
  intros Hf Hlk. revert b.
  induction Hlk as [|x l k _ IH|x y l|l k n _ IH1 _ IH2]; intros b; cbn.
  - done.
  - apply IH.
  - by rewrite Hf.
  - by rewrite IH1.
Qed.

Lemma mode_free_declared (item : Item) :
  Spec.mode item = free -> is_Some (Item.x item) \/ is_Some (Item.y item).
Proof.
  unfold Spec.mode. destruct (Item.x item), (Item.y item); try done; eauto.
Qed.

(** X15. For a list of free items only, the canvas height does not
    depend on the order of the items (nor on the column count): two
    lists that are permutations of one another get the same height,
    whatever the registry holds, [NaN] bottoms included. *)
Theorem free_height_ignores_order :
  forall (JSON_stringify : Item -> string) (items items' : list Item)
         (cols cols' maxW size_w : number) (naturalSizes : gmap string Dim),
    Forall (fun it => Spec.mode it = free) items ->
    items ≡ₚ items' ->
    canvasHeight JSON_stringify items cols maxW size_w naturalSizes
    = canvasHeight JSON_stringify items' cols' maxW size_w naturalSizes.
Proof.
  intros JSON_stringify items items' cols cols' maxW size_w naturalSizes
    Hfree Hperm.
  assert (Forall (fun it => Spec.mode it = free) items') as Hfree'
    by (by rewrite <- Hperm).
  unfold canvasHeight. rewrite <- (Permutation_length Hperm).
  case_bool_decide as Hlen; [done|].
  assert (forall l c, l <> [] -> Forall (fun it => Spec.mode it = free) l ->
                      anyFree l c size_w = true) as Hany.
  { intros l c Hl Hall. apply anyFree_true.
    destruct l as [|it l]; [done|]. left. by apply Forall_cons in Hall as [? _]. }
  rewrite !Hany; try done.
  2:{ intros ->. apply Permutation_nil_r in Hperm. by subst. }
  2:{ by intros ->. }
  unfold freeHeight, maxBottom. do 3 f_equal.
  assert (forall l c, Forall (fun it => Spec.mode it = free) l ->
             zip l (positions l c size_w)
             = (fun it => (it, Spec.freePosition size_w it)) <$> l) as Hzip.
  { intros l c Hl. apply zip_imap_fmap. intros i it Hit.
    apply position_free, mode_free_declared.
    rewrite Forall_forall in Hl. by apply Hl. }
  rewrite !Hzip by done.
  apply fold_left_perm_comm; [|by apply fmap_Permutation].
  intros ip ip' m. apply keep_larger_comm.
Qed.

Lemma free_height_ignores_order_witness :
  Forall (fun it => Spec.mode it = free) [Sample.photo; Sample.clip]
  /\ [Sample.photo; Sample.clip] ≡ₚ [Sample.clip; Sample.photo]
  /\ canvasHeight Sample.stringify [Sample.photo; Sample.clip] 3 480 2560
       Sample.loaded = 1004
  /\ canvasHeight Sample.stringify [Sample.clip; Sample.photo] 1 480 2560
       Sample.loaded = 1004.
Proof.
  assert (Forall (fun it => Spec.mode it = free) [Sample.photo; Sample.clip])
    as Hfree by (repeat constructor).
  assert ([Sample.photo; Sample.clip] ≡ₚ [Sample.clip; Sample.photo]) as Hperm
    by apply Permutation_swap.
  split_and!; [exact Hfree|exact Hperm|compute_done|].
  rewrite <- (free_height_ignores_order Sample.stringify
                [Sample.photo; Sample.clip] [Sample.clip; Sample.photo]
                3 1 480 2560 Sample.loaded Hfree Hperm).
  compute_done.
Defined.

Lemma of_nat_inj (a b : nat) : Number.of_nat a = Number.of_nat b -> a = b.
Proof. unfold Number.of_nat, Number.of_Z. intros [= H]. lia. Qed.

Lemma elem_of_nat_seq (k s len : nat) :
  Number.of_nat k ∈ Number.of_nat <$> seq s len <-> (s <= k < s + len)%nat.
Proof.
  rewrite list_elem_of_fmap. split.
  - intros (j & ->%of_nat_inj & Hj%elem_of_seq). lia.
  - intros Hk. exists k. split; [done|]. apply elem_of_seq. lia.
Qed.

(** Rounding the quotient up: [ceil(n / c)] on whole numbers. *)
Lemma div_up_bounds (n c : nat) :
  (0 < c)%nat -> (n / c <= (n + c - 1) / c <= n / c + 1)%nat.
Proof.
  intros Hc. split.
  - apply Nat.Div0.div_le_mono. lia.
  - replace (n / c + 1)%nat with ((n + 1 * c) / c)%nat
      by (rewrite Nat.div_add by lia; lia).
    apply Nat.Div0.div_le_mono. lia.
Qed.

Lemma div_up_succ (n c : nat) :
  (0 < c)%nat -> ((S n + c - 1) / c = n / c + 1)%nat.
Proof.
  intros Hc. replace (S n + c - 1)%nat with (n + 1 * c)%nat by lia.
  rewrite Nat.div_add by lia. lia.
Qed.

Lemma index_row_below_count (n c i : nat) :
  (0 < c)%nat -> (i < n)%nat -> (i / c + 1 <= (n + c - 1) / c)%nat.
Proof.
  intros Hc Hi. destruct n as [|n]; [lia|].
  rewrite div_up_succ by done.
  assert (i / c <= n / c)%nat by (apply Nat.Div0.div_le_mono; lia). lia.
Qed.

Lemma recordRow_keys (m : JsMap.t) (e : number * number) :
  JsMap.keys (recordRow m e) =
  if decide (e.1 ∈ JsMap.keys m) then JsMap.keys m else JsMap.keys m ++ [e.1].
Proof. apply JsMap_keys_set. Qed.

(** The rows met by the grid loop, in the order in which they are met. *)
Lemma grid_row_keys {A : Type} (c : nat) (h : nat -> A -> number) (l : list A) :
  (0 < c)%nat ->
  JsMap.keys
    (fold_left recordRow (imap (fun i x => (Number.of_nat (i / c), h i x)) l) [])
  = Number.of_nat <$> seq 0 ((length l + c - 1) / c).
Proof.
  intros Hc. induction l as [|x l IH] using rev_ind.
  - cbn [imap fold_left length]. by rewrite Nat.div_small by lia.
  - rewrite imap_app, fold_left_app. cbn [imap fold_left].
    rewrite recordRow_keys, IH. cbn [fst].
    rewrite Nat.add_0_r, length_app. cbn [length].
    replace (length l + 1)%nat with (S (length l)) by lia.
    rewrite div_up_succ by done.
    pose proof (div_up_bounds (length l) c Hc) as Hb.
    destruct (decide _) as [Hin|Hin].
    + apply elem_of_nat_seq in Hin. f_equal. f_equal. lia.
    + rewrite elem_of_nat_seq in Hin.
      assert ((length l + c - 1) / c = length l / c)%nat as -> by lia.
      by rewrite seq_app, fmap_app.
Qed.

(** Rows that are already in increasing order are left as they are. *)
Lemma sort_consecutive (s len : nat) :
  ArraySort.sort (Number.of_nat <$> seq s len) = Number.of_nat <$> seq s len.
Proof.
  revert s. induction len as [|len IH]; intros s; [done|].
  cbn [seq fmap list_fmap]. unfold ArraySort.sort. cbn [foldr].
  fold (ArraySort.sort (Number.of_nat <$> seq (S s) len)). rewrite IH.
  destruct len as [|len]; [done|].
  cbn [seq fmap list_fmap ArraySort.insert].
  assert ((Number.of_nat s - Number.of_nat (S s) >? 0)%js = false) as ->; [|done].
  unfold Number.of_nat, Number.of_Z, Number.sub, Number.gtb.
  cbn [Number.neg Number.add]. rewrite ltb_Fin.
  apply bool_decide_eq_false_2. intros H.
  assert (Qc_of_Z (Z.of_nat s) + 1 <= Qc_of_Z (Z.of_nat (S s)))%Qc
    by (apply Qc_of_nat_succ_le; lia).
  qc_lra.
Qed.

Lemma rows_consecutive (JSON_stringify : Item -> string) (items : list Item)
  (c : nat) (maxW size_w : number) (naturalSizes : gmap string Dim) :
  (0 < c)%nat ->
  Forall (fun it => Spec.mode it = grid) items ->
  rows JSON_stringify items (Number.of_nat c) maxW size_w naturalSizes
  = Number.of_nat <$> seq 0 ((length items + c - 1) / c).
Proof.
  intros Hc Hgrid.
  apply (anyFree_false items (Number.of_nat c) size_w) in Hgrid.
  unfold rows. rewrite rowHeights_entries by done.
  unfold Spec.rowEntries, Spec.rowOf.
  rewrite (imap_ext _
             (fun i it =>
                (Number.of_nat (i / c),
                 Spec.renderedHeightOf JSON_stringify maxW size_w naturalSizes it)))
    by (intros i it _; f_equal; by apply floor_div_nat).
  rewrite (grid_row_keys c
             (fun _ it =>
                Spec.renderedHeightOf JSON_stringify maxW size_w naturalSizes it))
    by done.
  apply sort_consecutive.
Qed.

(** X16. In grid mode with a whole number [c > 0] of columns, the rows
    that the sizing effect counts are exactly 0, 1, ... up to
    [ceil(n / c) - 1] for [n] items, in this order, whatever the
    registry holds: the number of rows, hence the gaps and the label
    padding of the canvas height, depends on the number of items and of
    columns only. *)
Theorem grid_rows_are_consecutive :
  forall (JSON_stringify : Item -> string) (items : list Item) (c : nat)
         (maxW size_w : number) (naturalSizes : gmap string Dim),
    (0 < c)%nat ->
    Forall (fun it => Spec.mode it = grid) items ->
    rows JSON_stringify items (Number.of_nat c) maxW size_w naturalSizes
    = Number.of_nat <$> seq 0 ((length items + c - 1) / c).
Proof. intros. by apply rows_consecutive. Qed.

Lemma grid_rows_are_consecutive_witness :
  (0 < 3)%nat
  /\ Forall (fun it => Spec.mode it = grid)
            [Sample.tall; Sample.small; Sample.silent; Sample.flipped]
  /\ rows Sample.stringify
       [Sample.tall; Sample.small; Sample.silent; Sample.flipped] 3 480 2560
       Sample.loadedNoVideo
     = [Number.of_nat 0; Number.of_nat 1].
Proof.
  assert (0 < 3)%nat as Hc by lia.
  assert (Forall (fun it => Spec.mode it = grid)
                 [Sample.tall; Sample.small; Sample.silent; Sample.flipped])
    as Hgrid by (repeat constructor).
  split_and!; [exact Hc|exact Hgrid|].
  apply (grid_rows_are_consecutive Sample.stringify
           [Sample.tall; Sample.small; Sample.silent; Sample.flipped] 3 480 2560
           Sample.loadedNoVideo Hc Hgrid).
Defined.

(** The largest of numbers is at least each of them; the largest and
    the sum of finite numbers that are not negative are finite and not
    negative, the sum being at least each of them. *)
Lemma max_list_ge (l : list number) (x : number) :
  Forall (fun b => b <> NaN) l -> x ∈ l -> (x <=? Spec.max_list l)%js = true.
Proof.
  intros Hl Hx. induction Hl as [|a l Ha Hl IH].
  - by apply elem_of_nil in Hx.
  - rewrite max_list_cons. pose proof (max_list_not_nan l Hl) as HM.
    apply elem_of_cons in Hx as [->|Hx].
    + by apply (max_ge_l a).
    + eapply leb_trans; [by apply IH|]. by apply leb_max_r.
Qed.

Lemma max_list_finiteNonneg (l : list number) :
  Forall Spec.finiteNonneg l -> l <> [] -> Spec.finiteNonneg (Spec.max_list l).
Proof.
  intros Hl Hne. induction Hl as [|a l (qa & -> & Ha) Hl IH]; [done|].
  rewrite max_list_cons. destruct l as [|b l].
  - change (Spec.max_list []) with NegInf. rewrite max_NegInf_r. by exists qa.
  - destruct IH as (qm & -> & Hm); [done|].
    rewrite max_Fin. eexists. split; [done|]. by case_bool_decide.
Qed.

Lemma sum_list_finiteNonneg (l : list number) :
  Forall Spec.finiteNonneg l ->
  Spec.finiteNonneg (Spec.sum_list l)
  /\ forall x, x ∈ l -> (x <=? Spec.sum_list l)%js = true.
Proof.
  induction 1 as [|a l (qa & -> & Ha) Hl [(qs & Hs & Hs0) IH]].
  - split; [|by intros x ?%elem_of_nil]. exists 0%Qc. split; [|done].
    symmetry. apply Fin_of_Z_0.
  - rewrite sum_list_cons, Hs. cbn [Number.add]. split.
    + eexists. split; [done|]. by apply Qcplus_nonneg_nonneg.
    + intros x [->|Hx]%elem_of_cons.
      * rewrite leb_Fin. apply bool_decide_eq_true_2. qc_lra.
      * specialize (IH x Hx). rewrite Hs in IH.
        eapply leb_trans; [exact IH|].
        rewrite leb_Fin. apply bool_decide_eq_true_2. qc_lra.
Qed.

Section GridContainment.

Variable JSON_stringify : Item -> string.
Variable items : list Item.
Variable cols : number.
Variable maxW : number.
Variable size_w : number.
Variable naturalSizes : gmap string Dim.

Hypothesis Hheights :
  Forall (fun e => Spec.finiteNonneg e.2)
         (Spec.rowEntries JSON_stringify items cols maxW size_w naturalSizes).

Lemma row_height_finite (r : number) :
  r ∈ Spec.distinctRows JSON_stringify items cols maxW size_w naturalSizes ->
  Spec.finiteNonneg
    (Spec.rowHeight JSON_stringify items cols maxW size_w naturalSizes r).
Proof.
  unfold Spec.distinctRows. rewrite elem_of_remove_dups.
  intros (e & -> & He)%list_elem_of_fmap.
  unfold Spec.rowHeight. apply max_list_finiteNonneg.
  - apply Forall_fmap, Forall_forall. intros e' [_ He']%list_elem_of_filter.
    rewrite Forall_forall in Hheights. by apply Hheights.
  - intros Hnil. apply fmap_nil_inv in Hnil.
    assert (e ∈ filter (fun e' => e'.1 = e.1)
                  (Spec.rowEntries JSON_stringify items cols maxW size_w
                     naturalSizes)) as Hin
      by (by apply list_elem_of_filter).
    rewrite Hnil in Hin. by apply elem_of_nil in Hin.
Qed.

Lemma row_heights_finite :
  Forall Spec.finiteNonneg
    (Spec.rowHeight JSON_stringify items cols maxW size_w naturalSizes
     <$> Spec.distinctRows JSON_stringify items cols maxW size_w naturalSizes).
Proof.
  apply Forall_fmap, Forall_forall. intros r Hr. by apply row_height_finite.
Qed.

Lemma entry_below_sum (e : number * number) :
  e ∈ Spec.rowEntries JSON_stringify items cols maxW size_w naturalSizes ->
  (e.2 <=? Spec.sum_list
             (Spec.rowHeight JSON_stringify items cols maxW size_w naturalSizes
              <$> Spec.distinctRows JSON_stringify items cols maxW size_w
                    naturalSizes))%js = true.
Proof.
  intros He.
  destruct (sum_list_finiteNonneg _ row_heights_finite) as [_ Hge].
  apply (leb_trans _ (Spec.rowHeight JSON_stringify items cols maxW size_w
                        naturalSizes e.1)).
  - unfold Spec.rowHeight. apply max_list_ge.
    + apply Forall_fmap, Forall_forall. intros e' [_ He']%list_elem_of_filter.
      rewrite Forall_forall in Hheights. cbn.
      by apply nonneg_not_nan, finiteNonneg_nonneg, Hheights.
    + apply list_elem_of_fmap. exists e. split; [done|].
      by apply list_elem_of_filter.
  - apply Hge, list_elem_of_fmap. exists e.1. split; [done|].
    unfold Spec.distinctRows. apply elem_of_remove_dups.
    apply list_elem_of_fmap. by exists e.
Qed.

End GridContainment.

Lemma rowEntries_heights (P : number -> Prop) (JSON_stringify : Item -> string)
  (items : list Item) (cols maxW size_w : number)
  (naturalSizes : gmap string Dim) :
  Forall (fun it =>
            P (getRenderedHeight maxW size_w it
                 (naturalSizes !! keyOf JSON_stringify it))) items ->
  Forall (fun e => P e.2)
         (Spec.rowEntries JSON_stringify items cols maxW size_w naturalSizes).
Proof.
  intros Hitems. apply Forall_forall. intros e Hin.
  apply list_elem_of_lookup in Hin as [i Hi].
  unfold Spec.rowEntries in Hi. rewrite list_lookup_imap in Hi.
  destruct (items !! i) as [it|] eqn:Ei; [|done]. injection Hi as <-. cbn.
  rewrite Forall_forall in Hitems. apply Hitems.
  by eapply list_elem_of_lookup_2.
Qed.

(** X17. In grid mode nothing is cut off at the bottom either: with a
    whole number [c > 0] of columns, a whole width and rendered heights
    that are all finite and not negative, for every item the planned
    [y] plus the rendered height plus the 24 of its label is at most the
    canvas height. *)
Theorem grid_canvas_contains_every_item :
  forall (JSON_stringify : Item -> string) (items : list Item) (c : nat)
         (maxW : number) (W : Z) (naturalSizes : gmap string Dim)
         (i : nat) (it : Item),
    (0 < c)%nat ->
    Forall (fun it => Spec.mode it = grid) items ->
    Forall (fun it =>
              Spec.finiteNonneg
                (getRenderedHeight maxW W it
                   (naturalSizes !! keyOf JSON_stringify it))) items ->
    items !! i = Some it ->
    (Pos.y (position (Number.of_nat c) W i it)
     + getRenderedHeight maxW W it (naturalSizes !! keyOf JSON_stringify it)
     + 24
     <=? canvasHeight JSON_stringify items (Number.of_nat c) maxW W
                      naturalSizes)%js = true.
Proof.
  intros JSON_stringify items c maxW W naturalSizes i it Hc Hgrid Hitems Hi.
  pose proof (rowEntries_heights Spec.finiteNonneg JSON_stringify items
                (Number.of_nat c) maxW W naturalSizes Hitems) as Hh.
  assert (items <> []) as Hne by (by intros ->).
  pose proof Hgrid as Hany.
  apply (anyFree_false items (Number.of_nat c) W) in Hany.
  assert (Forall (fun e => Number.nonneg e.2)
            (Spec.rowEntries JSON_stringify items (Number.of_nat c) maxW W
               naturalSizes)) as Hnn.
  { eapply Forall_impl; [exact Hh|]. intros e. apply finiteNonneg_nonneg. }
  unfold canvasHeight. rewrite Hany.
  rewrite bool_decide_eq_false_2 by (by destruct items).
  rewrite grid_height_spec by done. unfold Spec.gridHeight. cbn zeta.
  assert (length (Spec.distinctRows JSON_stringify items (Number.of_nat c) maxW
                    W naturalSizes)
          = ((length items + c - 1) / c)%nat) as ->.
  { rewrite <- (Permutation_length
                  (rows_perm JSON_stringify items (Number.of_nat c) maxW W
                     naturalSizes Hany)).
    rewrite rows_consecutive by done.
    by rewrite length_fmap, length_seq. }
  set (e := (Spec.rowOf (Number.of_nat c) i,
             Spec.renderedHeightOf JSON_stringify maxW W naturalSizes it)).
  assert (e ∈ Spec.rowEntries JSON_stringify items (Number.of_nat c) maxW W
                naturalSizes) as He.
  { apply list_elem_of_lookup. exists i. unfold Spec.rowEntries.
    by rewrite list_lookup_imap, Hi. }
  pose proof (entry_below_sum JSON_stringify items (Number.of_nat c) maxW W
                naturalSizes Hh e He) as Hle.
  destruct (sum_list_finiteNonneg _
              (row_heights_finite JSON_stringify items (Number.of_nat c) maxW W
                 naturalSizes Hh)) as [(s & Hs & Hs0) _].
  rewrite Hs in Hle |- *.
  rewrite Forall_forall in Hh. destruct (Hh e He) as (r & Hr & Hr0).
  cbn [snd] in Hr, Hle. unfold e, Spec.renderedHeightOf in Hr, Hle.
  cbn [snd] in Hr, Hle. rewrite Hr in Hle |- *.
  rewrite leb_Fin in Hle. apply bool_decide_eq_true_1 in Hle.
  destruct (grid_coordinates c W i it Hc) as (g & cw & Hg & Hlo & _ & _ & _ & ->).
  { rewrite Forall_forall in Hgrid. by eapply Hgrid, list_elem_of_lookup_2. }
  cbn [Pos.y]. rewrite Hg.
  pose proof (index_row_below_count (length items) c i Hc
                (lookup_lt_Some _ _ _ Hi)) as Hrow%Qc_of_nat_succ_le.
  pose proof (Qc_floor_le
                (Qc_of_Z 20 * g + Qc_of_Z (Z.of_nat (i / c)) * (Qc_of_Z 40 * g)
                 + Q2Qc (1 # 2))%Qc) as Hfl.
  unfold Number.of_nat, Number.of_Z.
  cbn [Number.mul Number.sub Number.neg Number.add].
  pose proof (Qc_of_Z_nonneg (Z.of_nat (i / c)) ltac:(lia)) as Hk.
  revert Hfl Hrow Hk.
  generalize (Qfloor
                (Qc_of_Z 20 * g + Qc_of_Z (Z.of_nat (i / c)) * (Qc_of_Z 40 * g)
                 + Q2Qc (1 # 2))%Qc).
  generalize (Qc_of_Z (Z.of_nat (i / c))).
  generalize (Z.of_nat ((length items + c - 1) / c)).
  intros R k z Hfl Hrow Hk.
  match goal with
  | |- (Fin ?a <=? Math.max _ (Math.ceil (Fin ?v)))%js = true =>
      apply (leb_trans _ (Fin v));
        [|eapply leb_trans; [by apply leb_ceil|by apply leb_max_r]]
  end.
  rewrite leb_Fin. apply bool_decide_eq_true_2.
  revert Hfl Hrow. generalize (Qc_of_Z z), (Qc_of_Z R). intros y n Hfl Hrow.
  clear -Hfl Hrow Hk Hle Hlo. qc_nra.
Qed.

Lemma grid_canvas_contains_every_item_witness :
  (0 < 3)%nat
  /\ Forall (fun it => Spec.mode it = grid)
            [Sample.tall; Sample.small; Sample.silent; Sample.tall]
  /\ Forall (fun it =>
               Spec.finiteNonneg
                 (getRenderedHeight 480 2560 it
                    (Sample.loaded !! keyOf Sample.stringify it)))
            [Sample.tall; Sample.small; Sample.silent; Sample.tall]
  /\ [Sample.tall; Sample.small; Sample.silent; Sample.tall] !! 3%nat
     = Some Sample.tall
  /\ (Pos.y (position 3 2560 3 Sample.tall)
      + getRenderedHeight 480 2560 Sample.tall
          (Sample.loaded !! keyOf Sample.stringify Sample.tall)
      + 24)%js = 1044
  /\ canvasHeight Sample.stringify
       [Sample.tall; Sample.small; Sample.silent; Sample.tall] 3 480 2560
       Sample.loaded = 2048
  /\ (Pos.y (position (Number.of_nat 3) 2560 3 Sample.tall)
      + getRenderedHeight 480 2560 Sample.tall
          (Sample.loaded !! keyOf Sample.stringify Sample.tall)
      + 24
      <=? canvasHeight Sample.stringify
            [Sample.tall; Sample.small; Sample.silent; Sample.tall]
            (Number.of_nat 3) 480 2560 Sample.loaded)%js = true.
Proof.
  assert (0 < 3)%nat as Hc by lia.
  assert (Forall (fun it => Spec.mode it = grid)
                 [Sample.tall; Sample.small; Sample.silent; Sample.tall])
    as Hgrid by (repeat constructor).
  assert (Forall (fun it =>
                    Spec.finiteNonneg
                      (getRenderedHeight 480 2560 it
                         (Sample.loaded !! keyOf Sample.stringify it)))
                 [Sample.tall; Sample.small; Sample.silent; Sample.tall])
    as Hh by (repeat constructor; apply finiteNonneg_check; reflexivity).
  split_and!; [exact Hc|exact Hgrid|exact Hh|reflexivity
              |compute_done|compute_done|].
  apply (grid_canvas_contains_every_item Sample.stringify
           [Sample.tall; Sample.small; Sample.silent; Sample.tall] 3 480 2560
           Sample.loaded 3 Sample.tall Hc Hgrid Hh eq_refl).
Defined.

Lemma fold_left_ext_in {A B : Type} (f g : B -> A -> B) (l : list A) (b : B) :
  (forall x c, x ∈ l -> f c x = g c x) ->
  fold_left f l b = fold_left g l b.
Proof.
  revert b. induction l as [|x l IH]; intros b Hfg; [done|].
  cbn. rewrite Hfg by (apply elem_of_cons; by left).
  apply IH. intros y c Hy. apply Hfg, elem_of_cons. by right.
Qed.

(** X18. The canvas height reads the registry at the keys of the items
    on display only: two registries that agree at those keys give the
    same height, so the entries left by items that are no longer
    displayed, which are never removed, have no effect. *)
Theorem canvas_height_reads_item_entries_only :
  forall (JSON_stringify : Item -> string) (items : list Item)
         (cols maxW size_w : number) (naturalSizes naturalSizes' : gmap string Dim),
    (forall it : Item,
        it ∈ items ->
        naturalSizes !! keyOf JSON_stringify it
        = naturalSizes' !! keyOf JSON_stringify it) ->
    canvasHeight JSON_stringify items cols maxW size_w naturalSizes
    = canvasHeight JSON_stringify items cols maxW size_w naturalSizes'.
Proof.
  intros JSON_stringify items cols maxW size_w ns ns' Hsame.
  assert (maxBottom JSON_stringify items cols maxW size_w ns
          = maxBottom JSON_stringify items cols maxW size_w ns') as Hfree.
  { unfold maxBottom. apply fold_left_ext_in.
    intros [it pos] m Hin%elem_of_zip_l. unfold freeStep. cbn [fst snd].
    by rewrite Hsame. }
  assert (rowHeights JSON_stringify items cols maxW size_w ns
          = rowHeights JSON_stringify items cols maxW size_w ns') as Hgrid.
  { unfold rowHeights. apply fold_left_ext_in.
    intros [it pos] m Hin%elem_of_zip_l. unfold gridStep. cbn [fst snd].
    by rewrite Hsame. }
  unfold canvasHeight, freeHeight, gridHeight, sumHeights, totalGaps,
    labelPadPerRow, rows.
  by rewrite Hfree, Hgrid.
Qed.

Lemma canvas_height_reads_item_entries_only_witness :
  (forall it : Item,
      it ∈ [Sample.tall; Sample.small] ->
      Sample.photosLoaded !! keyOf Sample.stringify it
      = Sample.loaded !! keyOf Sample.stringify it)
  /\ Sample.photosLoaded <> Sample.loaded
  /\ canvasHeight Sample.stringify [Sample.tall; Sample.small] 1 480 2560
       Sample.photosLoaded = 1138.
Proof.
  assert (forall it : Item,
             it ∈ [Sample.tall; Sample.small] ->
             Sample.photosLoaded !! keyOf Sample.stringify it
             = Sample.loaded !! keyOf Sample.stringify it) as Hsame.
  { intros it Hit. repeat (apply elem_of_cons in Hit as [->|Hit]);
      [reflexivity|reflexivity|by apply elem_of_nil in Hit]. }
  split_and!; [exact Hsame|compute_done|].
  rewrite (canvas_height_reads_item_entries_only Sample.stringify
             [Sample.tall; Sample.small] 1 480 2560 Sample.photosLoaded
             Sample.loaded Hsame).
  compute_done.
Defined.

(** ** The size of the stage *)

Lemma canvasHeight_lower_bound (JSON_stringify : Item -> string)
  (items : list Item) (cols maxW : number) (W : Z)
  (naturalSizes : gmap string Dim) :
  (canvasHeight JSON_stringify items cols maxW W naturalSizes >=? 500)%js = true.
Proof.
  unfold canvasHeight. case_bool_decide; [done|].
  destruct (anyFree _ _ _);
    [apply freeHeight_ge_500 | apply gridHeight_ge_500].
Qed.

(** X19. The size given to the [Stage] stays well formed: in every
    state reached from the initial [{ w: 800, h: 600 }] by measurements
    of the container and by updates of the sizing effect, in any order
    and for any items, columns, [maxW] and registry, the width is a
    whole number and the height is at least 500, and a whole number or
    [+Infinity]. *)
Theorem stage_size_invariant :
  forall (JSON_stringify : Item -> string) (s : Size),
    reachable JSON_stringify s ->
    (exists W : Z, Size.w s = W)
    /\ (Size.h s >=? 500)%js = true
    /\ (Size.h s = PosInf \/ exists z : Z, Size.h s = Number.of_Z z).
Proof.
  intros JSON_stringify s Hs.
  induction Hs as [|container s Hs ([W HW] & Hh & Hz)
                   |items cols maxW ns r s Hr ([Wr HWr] & _) Hs ([W HW] & _)].
  - split_and!; [by exists 800|done|right; by exists 600].
  - destruct container as [clientWidth|]; cbn.
    + split_and!; [by exists clientWidth|done|done].
    + split_and!; [by exists W|done|done].
  - cbn. rewrite HWr. split_and!.
    + by exists W.
    + apply canvasHeight_lower_bound.
    + destruct (canvasHeight_whole JSON_stringify items cols maxW Wr ns)
        as [?|(z & _ & ?)]; [by left|right; by exists z].
Qed.

Lemma stage_size_invariant_witness :
  reachable Sample.stringify
    (setHeight
       (canvasHeight Sample.stringify [Sample.photo; Sample.clip; Sample.small]
          3 480 (Size.w (measure (Some 2560) initialSize)) Sample.loaded)
       (measure (Some 2560) initialSize))
  /\ setHeight
       (canvasHeight Sample.stringify [Sample.photo; Sample.clip; Sample.small]
          3 480 (Size.w (measure (Some 2560) initialSize)) Sample.loaded)
       (measure (Some 2560) initialSize)
     = Size.mk 2560 1004
  /\ (Size.h
        (setHeight
           (canvasHeight Sample.stringify
              [Sample.photo; Sample.clip; Sample.small]
              3 480 (Size.w (measure (Some 2560) initialSize)) Sample.loaded)
           (measure (Some 2560) initialSize)) >=? 500)%js = true.
Proof.
  assert (reachable Sample.stringify
            (setHeight
               (canvasHeight Sample.stringify
                  [Sample.photo; Sample.clip; Sample.small]
                  3 480 (Size.w (measure (Some 2560) initialSize)) Sample.loaded)
               (measure (Some 2560) initialSize))) as Hreach
    by (repeat constructor).
  split_and!; [exact Hreach|compute_done|].
  by destruct (stage_size_invariant Sample.stringify _ Hreach) as (_ & Hh & _).
Defined.

(** ** Whole coordinates and the break points of the scale *)





Lemma clamp_mono (x y lo hi : Qc) :
  (lo <= hi)%Qc -> (x <= y)%Qc ->
  (Spec.clamp x lo hi <= Spec.clamp y lo hi)%Qc.
Proof.
  intros Hlh Hxy. unfold Spec.clamp.
  repeat case_bool_decide; try done; try apply Qcle_refl; qc_lra.
Qed.

(** X21. The global scale has two break points: it is 0.35 up to a
    width of 896, [W / 2560] between 896 and 2816, and 1.1 from 2816
    on; and it never decreases as the container gets wider. *)
Theorem globalScale_breakpoints :
  (forall W : Z,
      globalScale W =
      if decide (W <= 896) then Number.lit 35 100
      else if decide (2816 <= W) then Number.lit 11 10
      else Fin (Qc_of_Z W / Qc_of_Z 2560))
  /\ (forall W W' : Z,
         W <= W' -> (globalScale W <=? globalScale W')%js = true).
Proof.
  assert (forall W : Z,
             (Qc_of_Z 2560 * (Qc_of_Z W / Qc_of_Z 2560) = Qc_of_Z W)%Qc) as Hdiv
    by (intros W; by apply Qc_mul_div_cancel).
  split.
  - intros W. rewrite globalScale_Z. unfold Number.lit.
    specialize (Hdiv W). revert Hdiv.
    generalize (Qc_of_Z W / Qc_of_Z 2560)%Qc. intros x Hx.
    unfold Spec.clamp.
    destruct (decide (W <= 896)) as [Hlo|Hlo].
    + apply Qc_of_Z_le in Hlo. f_equal. case_bool_decide as H1; [done|].
      case_bool_decide as H2; [exfalso; qc_lra|]. qc_lra.
    + assert (897 <= W) as Hlo'%Qc_of_Z_le by lia.
      destruct (decide (2816 <= W)) as [Hhi|Hhi]; f_equal.
      * apply Qc_of_Z_le in Hhi.
        case_bool_decide as H1; [exfalso; qc_lra|].
        case_bool_decide as H2; [done|]. qc_lra.
      * assert (W <= 2815) as Hhi'%Qc_of_Z_le by lia.
        case_bool_decide as H1; [exfalso; qc_lra|].
        case_bool_decide as H2; [exfalso; qc_lra|done].
  - intros W W' HW. rewrite !globalScale_Z, leb_Fin.
    apply bool_decide_eq_true_2, clamp_mono; [done|].
    pose proof (Hdiv W) as Hx. pose proof (Hdiv W') as Hx'.
    apply Qc_of_Z_le in HW. revert Hx Hx'.
    generalize (Qc_of_Z W / Qc_of_Z 2560)%Qc, (Qc_of_Z W' / Qc_of_Z 2560)%Qc.
    intros x x' Hx Hx'. qc_lra.
Qed.

(** ** Ordinary inputs, further *)

Lemma below_refl (a : number) : Spec.finite a -> below a a.
Proof. intros [q ->]. exists q, q. split_and!; [done|done|apply Qcle_refl]. Qed.

Lemma below_leb (a b : number) : below a b -> (a <=? b)%js = true.
Proof.
  intros (x & y & -> & -> & Hxy). rewrite leb_Fin.
  by apply bool_decide_eq_true_2.
Qed.

Lemma below_add (a b a' b' : number) :
  below a a' -> below b b' -> below (a + b)%js (a' + b')%js.
Proof.
  intros (x & x' & -> & -> & Hx) (y & y' & -> & -> & Hy).
  eexists _, _. split_and!; [reflexivity|reflexivity|]. qc_lra.
Qed.

Lemma below_max (a b a' b' : number) :
  below a a' -> below b b' -> below (Math.max a b) (Math.max a' b').
Proof.
  intros (x & x' & -> & -> & Hx) (y & y' & -> & -> & Hy).
  rewrite !max_Fin. eexists _, _. split_and!; [reflexivity|reflexivity|].
  repeat case_bool_decide; qc_lra.
Qed.

Lemma below_ceil (a b : number) : below a b -> below (Math.ceil a) (Math.ceil b).
Proof.
  intros (x & y & -> & -> & Hxy). cbn [Math.ceil].
  eexists _, _. split_and!; [reflexivity|reflexivity|].
  apply Qc_of_Z_le, Qceiling_resp_le. qc_lra.
Qed.

Lemma max_list_below (l l' : list number) :
  Forall2 below l l' -> l <> [] ->
  below (Spec.max_list l) (Spec.max_list l').
Proof.
  induction 1 as [|a a' l l' Ha Hl IH]; [done|]. intros _.
  rewrite !max_list_cons. destruct Hl as [|b b' l l' Hb Hl].
  - change (Spec.max_list []) with NegInf. by rewrite !max_NegInf_r.
  - apply below_max; [done|]. by apply IH.
Qed.

Lemma sum_list_below (l l' : list number) :
  Forall2 below l l' -> below (Spec.sum_list l) (Spec.sum_list l').
Proof.
  induction 1 as [|a a' l l' Ha Hl IH].
  - apply below_refl. by eexists.
  - rewrite !sum_list_cons. by apply below_add.
Qed.

Section Loading.

Variable JSON_stringify : Item -> string.
Variable items : list Item.
Variable c : nat.
Variable maxW : number.
Variable W : Z.
Variables naturalSizes naturalSizes' : gmap string Dim.

Hypothesis Hcols : (0 < c)%nat.
Hypothesis HmaxW : Spec.finiteNonneg maxW.
Hypothesis Hitems : Forall Spec.ordinaryItem items.
Hypothesis Hregistry : Spec.ordinaryRegistry naturalSizes'.
Hypothesis Hloaded : naturalSizes ⊆ naturalSizes'.

Lemma registry_earlier : Spec.ordinaryRegistry naturalSizes.
Proof. intros k d Hk. apply (Hregistry k). by eapply lookup_weaken. Qed.

Lemma renderedHeight_below (it : Item) :
  Spec.ordinaryItem it ->
  below (Spec.renderedHeightOf JSON_stringify maxW W naturalSizes it)
        (Spec.renderedHeightOf JSON_stringify maxW W naturalSizes' it).
Proof.
  intros Hit.
  destruct (renderedHeight_ordinary JSON_stringify maxW W naturalSizes'
              HmaxW Hregistry it Hit) as (q & Hq & Hq0).
  unfold Spec.renderedHeightOf in *.
  destruct (naturalSizes !! keyOf JSON_stringify it) as [d|] eqn:E.
  - rewrite (lookup_weaken _ _ _ _ E Hloaded) in *.
    apply below_refl. by exists q.
  - rewrite Hq. cbn [getRenderedHeight]. rewrite <- Fin_of_Z_0.
    by exists 0%Qc, q.
Qed.

Lemma bottoms_below :
  Forall2 below
    (Spec.bottoms JSON_stringify items (Number.of_nat c) maxW W naturalSizes)
    (Spec.bottoms JSON_stringify items (Number.of_nat c) maxW W naturalSizes').
Proof.
  unfold Spec.bottoms. apply Forall2_fmap, Forall_Forall2_diag, Forall_forall.
  intros [it pos] Hin. cbn.
  apply elem_of_zip_l in Hin as Hit. cbn in Hit.
  apply list_elem_of_lookup in Hin as [i Hi].
  apply lookup_zip_Some in Hi as [Hi1 Hi2]. cbn in Hi1, Hi2.
  rewrite positions_lookup, Hi1 in Hi2. injection Hi2 as <-.
  rewrite Forall_forall in Hitems. specialize (Hitems it Hit).
  repeat apply below_add.
  - apply below_refl. by apply position_y_ordinary.
  - by apply renderedHeight_below.
  - apply below_refl. by eexists.
Qed.

Lemma freeHeight_below :
  items <> [] ->
  below
    (Spec.freeHeight JSON_stringify items (Number.of_nat c) maxW W naturalSizes)
    (Spec.freeHeight JSON_stringify items (Number.of_nat c) maxW W naturalSizes').
Proof.
  intros Hne. unfold Spec.freeHeight.
  destruct (globalScale_range W) as (g & Hg & _). rewrite Hg.
  apply below_max; [apply below_refl; by eexists|].
  apply below_ceil, below_add; [|apply below_refl; by eexists].
  apply max_list_below; [apply bottoms_below|].
  unfold Spec.bottoms. intros Hnil%fmap_nil_inv.
  apply (f_equal length) in Hnil.
  rewrite length_zip, positions_length in Hnil. destruct items; [done|].
  cbn in Hnil. lia.
Qed.

Lemma filtered_entries_below (r : number) (f : nat -> number) (l : list Item) :
  Forall Spec.ordinaryItem l ->
  Forall2 below
    (filter (fun e => e.1 = r)
       (imap (fun i it =>
                (f i, Spec.renderedHeightOf JSON_stringify maxW W
                        naturalSizes it)) l)).*2
    (filter (fun e => e.1 = r)
       (imap (fun i it =>
                (f i, Spec.renderedHeightOf JSON_stringify maxW W
                        naturalSizes' it)) l)).*2.
Proof.
  intros Hl. revert f. induction Hl as [|it l Hit Hl IH]; intros f.
  - constructor.
  - cbn [imap]. rewrite !filter_cons. cbn [fst].
    destruct (decide (f 0%nat = r)).
    + cbn [fmap list_fmap snd]. constructor.
      * by apply renderedHeight_below.
      * apply (IH (f ∘ S)).
    + apply (IH (f ∘ S)).
Qed.

Lemma distinctRows_registry :
  Spec.distinctRows JSON_stringify items (Number.of_nat c) maxW W naturalSizes
  = Spec.distinctRows JSON_stringify items (Number.of_nat c) maxW W
      naturalSizes'.
Proof.
  unfold Spec.distinctRows, Spec.rowEntries. f_equal.
  by rewrite !fmap_imap.
Qed.

Lemma gridHeight_below :
  below
    (Spec.gridHeight JSON_stringify items (Number.of_nat c) maxW W naturalSizes)
    (Spec.gridHeight JSON_stringify items (Number.of_nat c) maxW W naturalSizes').
Proof.
  unfold Spec.gridHeight. rewrite <- distinctRows_registry.
  destruct (globalScale_range W) as (g & Hg & _). rewrite Hg.
  apply below_max; [apply below_refl; by eexists|].
  apply below_ceil. repeat apply below_add;
    try (apply below_refl; by eexists).
  apply sum_list_below, Forall2_fmap, Forall_Forall2_diag, Forall_forall.
  intros r Hr. unfold Spec.rowHeight. apply max_list_below.
  - by apply filtered_entries_below.
  - unfold Spec.distinctRows in Hr. rewrite elem_of_remove_dups in Hr.
    apply list_elem_of_fmap in Hr as (e & -> & He).
    intros Hnil%fmap_nil_inv.
    assert (e ∈ filter (fun e' => e'.1 = e.1)
                  (Spec.rowEntries JSON_stringify items (Number.of_nat c)
                     maxW W naturalSizes)) as Hin
      by (by apply list_elem_of_filter).
    rewrite Hnil in Hin. by apply elem_of_nil in Hin.
Qed.

Lemma canvasHeight_below :
  below
    (canvasHeight JSON_stringify items (Number.of_nat c) maxW W naturalSizes)
    (canvasHeight JSON_stringify items (Number.of_nat c) maxW W naturalSizes').
Proof.
  destruct (decide (items = [])) as [->|Hne].
  - apply below_refl. by eexists.
  - rewrite !canvasHeight_ordinary by auto using registry_earlier.
    case_bool_decide; [by apply freeHeight_below|apply gridHeight_below].
Qed.

End Loading.

Lemma sample_items_ordinary :
  Forall Spec.ordinaryItem [Sample.tall; Sample.small; Sample.silent].
Proof.
  repeat constructor; cbn; try done.
  intros v [= <-]. exists (Qc_of_Z 300). split; [done|].
  apply Qc_of_Z_nonneg. lia.
Qed.

Lemma sample_loaded_ordinary : Spec.ordinaryRegistry Sample.loaded.
Proof.
  intros k d. unfold Sample.loaded, Sample.photosLoaded, handleNaturalSize.
  rewrite !lookup_insert_Some, lookup_empty.
  intros H.
  repeat match goal with
         | H : _ \/ _ |- _ => destruct H
         | H : _ /\ _ |- _ => destruct H
         end; try done; simplify_eq;
    eexists _, _; (split; [reflexivity|split; by apply Qc_of_Z_lt]).
Qed.

Lemma sample_photos_first : Sample.photosLoaded ⊆ Sample.loaded.
Proof.
  unfold Sample.loaded, handleNaturalSize.
  etrans; [|apply insert_subseteq; compute_done].
  apply insert_subseteq. compute_done.
Qed.



(** X23. The canvas never shrinks while media load: with ordinary
    inputs, if the registry [naturalSizes'] holds every entry of
    [naturalSizes] unchanged, and possibly more, the canvas height for
    [naturalSizes] is at most the canvas height for [naturalSizes']. *)
Theorem canvas_grows_as_media_load :
  forall (JSON_stringify : Item -> string) (items : list Item) (c : nat)
         (maxW : number) (W : Z) (naturalSizes naturalSizes' : gmap string Dim),
    (0 < c)%nat ->
    Spec.finiteNonneg maxW ->
    Forall Spec.ordinaryItem items ->
    Spec.ordinaryRegistry naturalSizes' ->
    naturalSizes ⊆ naturalSizes' ->
    (canvasHeight JSON_stringify items (Number.of_nat c) maxW W naturalSizes
     <=? canvasHeight JSON_stringify items (Number.of_nat c) maxW W
           naturalSizes')%js = true.
Proof.
  intros JSON_stringify items c maxW W naturalSizes naturalSizes'
         Hc HmaxW Hitems Hreg Hsub.
  by apply below_leb, canvasHeight_below.
Qed.

Lemma canvas_grows_as_media_load_witness :
  (canvasHeight Sample.stringify [Sample.tall; Sample.small; Sample.silent]
     (Number.of_nat 3) 480 2560 Sample.photosLoaded
   <=? canvasHeight Sample.stringify [Sample.tall; Sample.small; Sample.silent]
         (Number.of_nat 3) 480 2560 Sample.loaded)%js = true.
Proof.
  apply canvas_grows_as_media_load.
  - lia.
  - exists (Qc_of_Z 480). split; [done|]. apply Qc_of_Z_nonneg. lia.
  - apply sample_items_ordinary.
  - apply sample_loaded_ordinary.
  - apply sample_photos_first.
Defined.
